(** * tolteca: the time-chunk planner, the file-name classifier, the
      simulator configuration schema and the obs-planner coverage map

    A shallow embedding of the parts of [tolteca] that the specification
    makes checkable statements about:

    - [tolteca/simu2/__init__.py]: [SimulatorRuntime._make_time_chunks],
      the exposure-time selection of [SimulatorRuntime.run] and the
      [Meta.schema] flags of the configuration dataclasses;
    - [tolteca/fs/toltec.py]: [ToltecDataFileSpec._info_from_filename];
    - [tolteca/web/templates/obs_planner/toltec.py]: the depth conversion
      and outline extraction of [Toltec.make_traj_data] and the raw
      coverage image of [Toltec._make_cov_hdu_approx].

    Conventions.  Physical quantities are carried by their value in SI
    units.  Floating-point numbers are idealised: exact rationals ([Q])
    where the code only adds, multiplies, divides, compares and rounds,
    real numbers ([R]) where it takes square roots.  Python exceptions are
    an explicit [Raise] result. *)

From Stdlib Require Import ZArith QArith Qround Qabs List Lia Bool.
From Stdlib Require Import Reals Lra Sorted.
From Stdlib Require Import Ascii DecimalString.
From Stdlib Require String.
From stdpp Require Import base option list strings gmap.
Import ListNotations.

Set Default Proof Using "Type".
Set Warnings "-register-all".

(** ** Python results *)

Module Py.

Inductive exn : Type :=
| ZeroDivisionError
| ValueError
| TypeError
| KeyError
| AttributeError
| NameError
| SchemaMissingKeyError (key : string)
| SchemaWrongKeyError (key : string).

Inductive result (A : Type) : Type :=
| Ok (a : A)
| Raise (e : exn).
Arguments Ok {A} a.
Arguments Raise {A} e.

Definition bind {A B} (r : result A) (k : A -> result B) : result B :=
  match r with
  | Ok a => k a
  | Raise e => Raise e
  end.

Definition returns {A} (r : result A) : Prop := exists a, r = Ok a.

(** [l[a:b]] for a Python list or a one-dimensional numpy array: a negative
    bound counts from the end, and both bounds are clipped to the length. *)
Definition slice_bound (len i : Z) : Z :=
  let i := if (i <? 0)%Z then (i + len)%Z else i in
  Z.max 0 (Z.min len i).

Definition slice {A} (a b : Z) (l : list A) : list A :=
  let len := Z.of_nat (length l) in
  let a' := slice_bound len a in
  let b' := slice_bound len b in
  firstn (Z.to_nat (b' - a')) (skipn (Z.to_nat a') l).

(** [int(x)] of a float: truncation towards zero. *)
Definition int_of_float (x : Q) : Z := Z.quot (Qnum x) (Z.pos (Qden x)).

(** [bool(n)] added to an integer. *)
Definition bool_of_int (n : Z) : Z := if (n =? 0)%Z then 0%Z else 1%Z.

(** [np.arange(0, stop, step)] in exact arithmetic: [ceil(stop / step)]
    values [i * step].  In binary64 the quotient is rounded before the
    ceiling is taken, which can give one value more (one second at 49 Hz
    gives 50 values); the theorems on the planner's chunks are stated in
    terms of the array and of its length, not of this count. *)
Definition arange (stop step : Q) : list Q :=
  map (fun i : nat => (inject_Z (Z.of_nat i) * step)%Q)
      (seq 0 (Z.to_nat (Qceiling (stop / step)%Q))).

End Py.

Import Py.

(** ** [tolteca/simu2/__init__.py] *)

Module Simu.

(** The loop [for i in range(n_chunks): t_chunks.append(t[i*n:(i+1)*n])]. *)
Definition split_chunks (t : list Q) (n_times_per_chunk n_chunks : Z)
  : list (list Q) :=
  map (fun i : nat =>
         slice (Z.of_nat i * n_times_per_chunk)
               ((Z.of_nat i + 1) * n_times_per_chunk) t)
      (seq 0 (Z.to_nat n_chunks)).

(** [n_times // n_times_per_chunk + bool(n_times % n_times_per_chunk)];
    both operands are Python integers, so a zero divisor raises. *)
Definition count_chunks (n_times n_times_per_chunk : Z) : result Z :=
  if (n_times_per_chunk =? 0)%Z then Raise ZeroDivisionError
  else Ok (n_times / n_times_per_chunk
           + bool_of_int (n_times mod n_times_per_chunk))%Z.

(** "merge the last chunk if it is too small": under [n_chunks >= 2] the
    list has a last and a second-to-last entry; [pop] removes the last one
    and [t_chunks[-1] = np.hstack(...)] overwrites the new last one. *)
Definition merge_last_chunk (n_chunks : Z) (t_chunks : list (list Q))
  : list (list Q) :=
  if (2 <=? n_chunks)%Z then
    match rev t_chunks with
    | last_chunk :: prev_chunk :: front =>
        if (Z.of_nat (length last_chunk) * 10
            <? Z.of_nat (length prev_chunk))%Z
        then rev front ++ [prev_chunk ++ last_chunk]
        else t_chunks
    | _ => t_chunks
    end
  else t_chunks.

Definition n_times_per_chunk_of (f_smp chunk_len : Q) : Z :=
  int_of_float (chunk_len * f_smp)%Q.

Definition time_grid (t_exp f_smp : Q) : list Q :=
  arange t_exp (1 / f_smp)%Q.

(** The chunk list before the merge step. *)
Definition naive_time_chunks (t_exp f_smp chunk_len : Q)
  : result (list (list Q)) :=
  let t := time_grid t_exp f_smp in
  let n_times_per_chunk := n_times_per_chunk_of f_smp chunk_len in
  let n_times := Z.of_nat (length t) in
  bind (count_chunks n_times n_times_per_chunk) (fun n_chunks =>
  Ok (split_chunks t n_times_per_chunk n_chunks)).

Definition _make_time_chunks (t_exp f_smp chunk_len : Q)
  : result (list (list Q)) :=
  let t := time_grid t_exp f_smp in
  let n_times_per_chunk := n_times_per_chunk_of f_smp chunk_len in
  let n_times := Z.of_nat (length t) in
  bind (count_chunks n_times n_times_per_chunk) (fun n_chunks =>
  let t_chunks := split_chunks t n_times_per_chunk n_chunks in
  Ok (merge_last_chunk n_chunks t_chunks)).

(** [np.linspace(0, stop, num)]: [num] evenly spaced values, the last one
    set to [stop] itself; a negative [num] raises. *)
Definition linspace (stop : Q) (num : Z) : result (list Q) :=
  if (num <? 0)%Z then Raise ValueError
  else if (num <=? 1)%Z then Ok (map (fun _ : nat => 0%Q) (seq 0 (Z.to_nat num)))
  else
    let step := (stop / inject_Z (num - 1))%Q in
    Ok (map (fun i : nat => (inject_Z (Z.of_nat i) * step)%Q)
            (seq 0 (Z.to_nat (num - 1))) ++ [stop]).

(** *** The configuration objects read by [run] *)

Record ObsParamsConfig : Type := {
  t_exp : option Q;
  f_smp_mapping : Q;
  f_smp_probing : Q
}.

Record PerfParamsConfig : Type := {
  chunk_len : Q;
  catalog_model_render_pixel_size : Q;
  mapping_eval_interp_len : option Q;
  mapping_erfa_interp_len : Q;
  atm_eval_interp_alt_step : Q;
  pre_run_setup_time_grid_size : Z;
  anim_frame_rate : Q
}.

(** The dataclass defaults (seconds, hertz, arcseconds). *)
Definition ObsParamsConfig_default : ObsParamsConfig :=
  {| t_exp := None; f_smp_mapping := 12; f_smp_probing := 120 |}.

Definition PerfParamsConfig_default : PerfParamsConfig :=
  {| chunk_len := 10;
     catalog_model_render_pixel_size := 1 # 2;
     mapping_eval_interp_len := None;
     mapping_erfa_interp_len := 300;
     atm_eval_interp_alt_step := 240;
     pre_run_setup_time_grid_size := 100;
     anim_frame_rate := 300 |}.

Record SimuConfig : Type := {
  jobkey : string;
  obs_params : ObsParamsConfig;
  perf_params : PerfParamsConfig;
  plot_only : bool
}.

(** What [run] reads of the mapping model. *)
Record MappingModel : Type := { t_pattern : Q }.

(** "here we use t_pattern when t_exp is not set" *)
Definition exposure_time (obs : ObsParamsConfig) (m_mapping : MappingModel)
  : Q :=
  match t_exp obs with
  | None => t_pattern m_mapping
  | Some t => t
  end.

Record time_plan : Type := TimePlan {
  plan_t_exp : Q;
  plan_t_chunks : list (list Q);
  plan_pre_run_setup_time_grid : list Q
}.

(** The time grid and the chunks that [run] builds. *)
Definition run_time_plan (cfg : SimuConfig) (m_mapping : MappingModel)
  : result time_plan :=
  let t_exp := exposure_time (obs_params cfg) m_mapping in
  bind (_make_time_chunks t_exp (f_smp_probing (obs_params cfg))
          (chunk_len (perf_params cfg))) (fun t_chunks =>
  bind (linspace t_exp (pre_run_setup_time_grid_size (perf_params cfg)))
       (fun grid =>
  Ok (TimePlan t_exp t_chunks grid))).

(** The loop over the chunks: each evaluated chunk is appended to the
    output; an evaluation that raises ends the run and leaves what was
    written. *)
Fixpoint write_chunks {TOD : Type} (tod_eval : list Q -> result TOD)
    (t_chunks : list (list Q)) (written : list TOD)
  : list TOD * result unit :=
  match t_chunks with
  | [] => (written, Ok tt)
  | t :: rest =>
      match tod_eval t with
      | Ok d => write_chunks tod_eval rest (written ++ [d])
      | Raise e => (written, Raise e)
      end
  end.

Inductive run_value : Type :=
| PlotResults
| OutputDir (plan : time_plan).

(** [run]: [tod_evaluator] is [sim.tod_evaluator], which [run] calls with
    the mapping model, the configuration ([simu_config=cfg], of which the
    simulator and the sources are made) and the pre-run set-up grid; the
    evaluator it gives back is called with each chunk.  The first
    component is the data that [write_sim_data] has written when [run]
    returns or raises. *)
Definition run {TOD : Type}
    (tod_evaluator :
       MappingModel -> SimuConfig -> list Q -> list Q -> result TOD)
    (cfg : SimuConfig) (m_mapping : MappingModel)
  : list TOD * result run_value :=
  if plot_only cfg then ([], Ok PlotResults)
  else
    match run_time_plan cfg m_mapping with
    | Raise e => ([], Raise e)
    | Ok plan =>
        let '(written, status) :=
          write_chunks
            (tod_evaluator m_mapping cfg (plan_pre_run_setup_time_grid plan))
            (plan_t_chunks plan) [] in
        (written, bind status (fun _ => Ok (OutputDir plan)))
    end.

(** *** The configuration schema *)

(** A configuration document. *)
Inductive node : Type :=
| Scalar (v : string)
| Mapping (items : list (string * node))
| Sequence (items : list node).

Record dataclass_field : Type := Field {
  field_name : string;
  field_required : bool;
  field_schema : node -> result node
}.

(** A dataclass schema: its fields and the [ignore_extra_keys] entry of
    its [Meta.schema]. *)
Record dataclass_schema : Type := DataclassSchema {
  fields : list dataclass_field;
  ignore_extra_keys : bool
}.

Definition find_field (s : dataclass_schema) (key : string)
  : option dataclass_field :=
  find (fun f => bool_decide (field_name f = key)) (fields s).

(** The items of the document whose key is a field, each validated by the
    schema of its field. *)
Fixpoint validate_items (s : dataclass_schema) (items : list (string * node))
  : result (list (string * node)) :=
  match items with
  | [] => Ok []
  | (key, value) :: rest =>
      match find_field s key with
      | Some f =>
          bind (field_schema f value) (fun value' =>
          bind (validate_items s rest) (fun rest' =>
          Ok ((key, value') :: rest')))
      | None => validate_items s rest
      end
  end.

Definition missing_keys (s : dataclass_schema) (items : list (string * node))
  : list string :=
  filter (fun k => k ∉ items.*1)
         (field_name <$> filter (fun f => field_required f = true) (fields s)).

Definition wrong_keys (s : dataclass_schema) (items : list (string * node))
  : list string :=
  filter (fun k => find_field s k = None) (items.*1).

(** Validation of a mapping against a dataclass schema: the values of the
    known keys are validated, a missing required key raises, and a key
    that is no field raises unless [ignore_extra_keys] is set, in which
    case it is dropped. *)
Definition validate (s : dataclass_schema) (data : node) : result node :=
  match data with
  | Mapping items =>
      bind (validate_items s items) (fun new =>
      match missing_keys s items with
      | k :: _ => Raise (SchemaMissingKeyError k)
      | [] =>
          match wrong_keys s items with
          | k :: _ =>
              if ignore_extra_keys s then Ok (Mapping new)
              else Raise (SchemaWrongKeyError k)
          | [] => Ok (Mapping new)
          end
      end)
  | _ => Raise TypeError
  end.

Section SimuSchema.

(** The schemas the dataclasses take from outside this module: the
    physical-type schema of a quantity and the registry schemas. *)
Variable PhysicalTypeSchema : string -> node -> result node.
Variable instrument_schema mapping_schema : node -> result node.
Variable sources_schema plots_schema exports_schema : node -> result node.
Variable str_schema bool_schema : node -> result node.

Definition ObsParamsConfig_schema : dataclass_schema :=
  {| fields :=
       [ Field "t_exp" false (PhysicalTypeSchema "time");
         Field "f_smp_mapping" false (PhysicalTypeSchema "frequency");
         Field "f_smp_probing" false (PhysicalTypeSchema "frequency") ];
     ignore_extra_keys := false |}.

Definition PerfParamsConfig_schema : dataclass_schema :=
  {| fields :=
       [ Field "chunk_len" false (PhysicalTypeSchema "time");
         Field "catalog_model_render_pixel_size" false
           (PhysicalTypeSchema "angle");
         Field "mapping_eval_interp_len" false (PhysicalTypeSchema "time");
         Field "mapping_erfa_interp_len" false (PhysicalTypeSchema "time");
         Field "atm_eval_interp_alt_step" false
           (PhysicalTypeSchema "angle");
         Field "pre_run_setup_time_grid_size" false
           (PhysicalTypeSchema "angle");
         Field "anim_frame_rate" false (PhysicalTypeSchema "frequency") ];
     ignore_extra_keys := false |}.

Definition SimuConfig_schema : dataclass_schema :=
  {| fields :=
       [ Field "jobkey" true str_schema;
         Field "instrument" true instrument_schema;
         Field "mapping" true mapping_schema;
         Field "obs_params" true (validate ObsParamsConfig_schema);
         Field "sources" false sources_schema;
         Field "perf_params" false (validate PerfParamsConfig_schema);
         Field "plots" false plots_schema;
         Field "exports" false exports_schema;
         Field "plot_only" false bool_schema ];
     ignore_extra_keys := true |}.

End SimuSchema.

(** *** The check of the command-line configuration in [cli_run] *)

(** [c[k]] on the items of a dictionary. *)
Fixpoint dict_get (k : string) (items : list (string * node))
  : option node :=
  match items with
  | [] => None
  | (k', v) :: rest => if decide (k' = k) then Some v else dict_get k rest
  end.

Inductive check_outcome : Type :=
| Passed
| InvalidConfigItems.

Definition raised (a b : check_outcome) : check_outcome :=
  match a with
  | Passed => b
  | InvalidConfigItems => InvalidConfigItems
  end.

(** [_check_ignored(key_prefix, d, c)]: where both are dictionaries, a
    key of [d] that [c] lacks raises [SimulatorRuntimeError], and the
    values under the common keys are checked in turn.  The key prefix only
    goes into the message and is left out. *)
Fixpoint _check_ignored (d c : node) {struct d} : check_outcome :=
  match d, c with
  | Mapping ditems, Mapping citems =>
      raised
        (if existsb (fun kv : string * node =>
                       negb (bool_decide (kv.1 ∈ citems.*1))) ditems
         then InvalidConfigItems else Passed)
        ((fix common (l : list (string * node)) : check_outcome :=
            match l with
            | [] => Passed
            | (k, dv) :: l' =>
                raised
                  (match dict_get k citems with
                   | Some cv => _check_ignored dv cv
                   | None => Passed
                   end)
                  (common l')
            end) ditems)
  | _, _ => Passed
  end.

(** The inner loop of [_check_ignored], for a given check of the values. *)
Fixpoint check_common (check : node -> node -> check_outcome)
    (citems l : list (string * node)) : check_outcome :=
  match l with
  | [] => Passed
  | (k, dv) :: l' =>
      raised
        (match dict_get k citems with
         | Some cv => check dv cv
         | None => Passed
         end)
        (check_common check citems l')
  end.

(** A path of keys through the dictionaries of [d] whose last key is not
    in [c] while the keys before it are. *)
Inductive ignored_path : node -> node -> list string -> Prop :=
| ignored_here ditems citems k dv :
    (k, dv) ∈ ditems -> k ∉ citems.*1 ->
    ignored_path (Mapping ditems) (Mapping citems) [k]
| ignored_below ditems citems k dv cv p :
    (k, dv) ∈ ditems -> dict_get k citems = Some cv ->
    ignored_path dv cv p ->
    ignored_path (Mapping ditems) (Mapping citems) (k :: p).

End Simu.

(** ** [tolteca/fs/toltec.py] *)

Module FileSpec.

(** Python [str] values are strings over the code points 0..255, where
    the class [\d] is exactly the ten ASCII digits. *)

Inductive datetime : Type :=
| Datetime (year month day hour minute second : Z).

Inductive pyval : Type :=
| VNone
| VStr (s : string)
| VInt (n : Z)
| VDatetime (d : datetime).

Definition info_dict : Type := gmap string pyval.

(** *** Character classes of the two patterns *)

Definition is_digit (c : ascii) : bool :=
  (48 <=? nat_of_ascii c)%nat && (nat_of_ascii c <=? 57)%nat.

(** [[^\/.]] *)
Definition is_kind_char (c : ascii) : bool :=
  negb (Ascii.eqb c "/"%char) && negb (Ascii.eqb c "."%char).

(** [.] without [re.DOTALL]: anything but a newline. *)
Definition is_dot_char (c : ascii) : bool := negb (Ascii.eqb c "010"%char).

(** *** Pattern pieces *)

(** The longest prefix of [s] whose characters satisfy [p], and the rest:
    what a greedy [p+] or [p*] consumes first. *)
Fixpoint span (p : ascii -> bool) (s : string) : string * string :=
  match s with
  | EmptyString => (EmptyString, EmptyString)
  | String c s' =>
      if p c then let '(a, b) := span p s' in (String c a, b)
      else (EmptyString, s)
  end.

(** A literal. *)
Fixpoint lit (l s : string) : option string :=
  match l, s with
  | EmptyString, _ => Some s
  | String a l', String b s' => if Ascii.eqb a b then lit l' s' else None
  | String _ _, EmptyString => None
  end.

(** [p+] followed by something [p] does not match. *)
Definition many1 (p : ascii -> bool) (s : string) : option (string * string) :=
  let '(a, b) := span p s in
  match a with
  | EmptyString => None
  | _ => Some (a, b)
  end.

(** [\d{n}] *)
Fixpoint digits (n : nat) (s : string) : option (string * string) :=
  match n with
  | O => Some (EmptyString, s)
  | S n' =>
      match s with
      | String c s' =>
          if is_digit c
          then '(a, b) ← digits n' s'; Some (String c a, b)
          else None
      | EmptyString => None
      end
  end.

(** [\d{4}_\d{2}_\d{2}(?:_\d{2}_\d{2}_\d{2})] *)
Definition ut_toltec (s : string) : option (string * string) :=
  '(y, s) ← digits 4 s; s ← lit "_" s;
  '(m, s) ← digits 2 s; s ← lit "_" s;
  '(d, s) ← digits 2 s; s ← lit "_" s;
  '(hh, s) ← digits 2 s; s ← lit "_" s;
  '(mm, s) ← digits 2 s; s ← lit "_" s;
  '(ss, s) ← digits 2 s;
  Some (y +:+ "_" +:+ m +:+ "_" +:+ d +:+ "_" +:+ hh +:+ "_" +:+ mm
          +:+ "_" +:+ ss, s).

(** [\d{4}-\d{2}-\d{2}] *)
Definition ut_wyatt (s : string) : option (string * string) :=
  '(y, s) ← digits 4 s; s ← lit "-" s;
  '(m, s) ← digits 2 s; s ← lit "-" s;
  '(d, s) ← digits 2 s;
  Some (y +:+ "-" +:+ m +:+ "-" +:+ d, s).

(** [(?:_(?P<kindstr>[^\/.]+))?]: the group takes part when an underscore
    and at least one kind character follow; otherwise nothing is consumed
    and [kindstr] is unset. *)
Definition opt_kind (s : string) : option string * string :=
  match lit "_" s with
  | Some s' =>
      match many1 is_kind_char s' with
      | Some (k, s'') => (Some k, s'')
      | None => (None, s)
      end
  | None => (None, s)
  end.

(** [(?P<fileext>.+)$]: [$] holds at the end of the string and just before
    a newline that ends the string. *)
Definition ext_to_end (s : string) : option string :=
  '(e, s') ← many1 is_dot_char s;
  if decide (s' = "" \/ s' = String "010"%char "") then Some e else None.

(** *** The TolTEC pattern *)

Record toltec_groups : Type := ToltecGroups {
  g_nwid : string;
  g_obsid : string;
  g_subobsid : string;
  g_scanid : string;
  g_ut : string;
  g_kindstr : option string;
  g_fileext : string
}.

(** [re.match(re_toltec_file, filename)] *)
Definition re_toltec_file (filename : string) : option toltec_groups :=
  s ← lit "toltec" filename;
  '(nwid, s) ← many1 is_digit s; s ← lit "_" s;
  '(obsid, s) ← many1 is_digit s; s ← lit "_" s;
  '(subobsid, s) ← many1 is_digit s; s ← lit "_" s;
  '(scanid, s) ← many1 is_digit s; s ← lit "_" s;
  '(ut, s) ← ut_toltec s;
  let '(kindstr, s) := opt_kind s in
  s ← lit "." s;
  fileext ← ext_to_end s;
  Some (ToltecGroups nwid obsid subobsid scanid ut kindstr fileext).

Definition opt_str (o : option string) : pyval :=
  match o with
  | Some s => VStr s
  | None => VNone
  end.

(** [m.groupdict()]: every named group of the pattern, in pattern order;
    a group that took no part in the match maps to [None]. *)
Definition groupdict_toltec (g : toltec_groups) : list (string * pyval) :=
  [ ("interface", VStr ("toltec" +:+ g_nwid g));
    ("instru", VStr "toltec");
    ("nwid", VStr (g_nwid g));
    ("obsid", VStr (g_obsid g));
    ("subobsid", VStr (g_subobsid g));
    ("scanid", VStr (g_scanid g));
    ("ut", VStr (g_ut g));
    ("kindstr", opt_str (g_kindstr g));
    ("fileext", VStr (g_fileext g)) ].

(** *** The wyatt pattern *)

Record wyatt_groups : Type := WyattGroups {
  w_ut : string;
  w_obsid : string;
  w_subobsid : string;
  w_scanid : string;
  w_kindstr : option string;
  w_fileext : string
}.

Definition re_wyatt_file (filename : string) : option wyatt_groups :=
  s ← lit "wyatt" filename; s ← lit "_" s;
  '(ut, s) ← ut_wyatt s; s ← lit "_" s;
  '(obsid, s) ← many1 is_digit s; s ← lit "_" s;
  '(subobsid, s) ← many1 is_digit s; s ← lit "_" s;
  '(scanid, s) ← many1 is_digit s;
  let '(kindstr, s) := opt_kind s in
  s ← lit "." s;
  fileext ← ext_to_end s;
  Some (WyattGroups ut obsid subobsid scanid kindstr fileext).

Definition groupdict_wyatt (g : wyatt_groups) : list (string * pyval) :=
  [ ("interface", VStr "wyatt");
    ("instru", VStr "wyatt");
    ("ut", VStr (w_ut g));
    ("obsid", VStr (w_obsid g));
    ("subobsid", VStr (w_subobsid g));
    ("scanid", VStr (w_scanid g));
    ("kindstr", opt_str (w_kindstr g));
    ("fileext", VStr (w_fileext g)) ].

(** *** Field conversion *)

Definition digit_val (c : ascii) : Z := (Z.of_nat (nat_of_ascii c) - 48)%Z.

Fixpoint int_of_digits (acc : Z) (s : string) : Z :=
  match s with
  | EmptyString => acc
  | String c s' => int_of_digits (acc * 10 + digit_val c)%Z s'
  end.

(** [int(v)] on a string of decimal digits, which is all that the patterns
    hand to it; leading zeros are allowed. *)
Definition py_int (s : string) : result Z :=
  match many1 is_digit s with
  | Some (d, EmptyString) => Ok (int_of_digits 0 d)
  | _ => Raise ValueError
  end.

Definition is_leap (y : Z) : bool :=
  ((y mod 4 =? 0) && negb (y mod 100 =? 0) || (y mod 400 =? 0))%Z.

Definition days_in_month (y m : Z) : Z :=
  if (m =? 2)%Z then (if is_leap y then 29 else 28)%Z
  else if ((m =? 4) || (m =? 6) || (m =? 9) || (m =? 11))%Z then 30%Z
  else 31%Z.

(** The [datetime] constructor raises [ValueError] on a field out of
    range; years run from [MINYEAR = 1] to [MAXYEAR = 9999]. *)
Definition datetime_new (y m d hh mm ss : Z) : result datetime :=
  if ((1 <=? y) && (y <=? 9999) && (1 <=? m) && (m <=? 12)
      && (1 <=? d) && (d <=? days_in_month y m)
      && (0 <=? hh) && (hh <=? 23) && (0 <=? mm) && (mm <=? 59)
      && (0 <=? ss) && (ss <=? 59))%Z
  then Ok (Datetime y m d hh mm ss)
  else Raise ValueError.

(** [datetime.strptime(v, '%Y_%m_%d_%H_%M_%S')] on the strings the TolTEC
    pattern lets through (a four-digit and five two-digit fields). *)
Definition strptime_toltec (v : string) : result datetime :=
  match
    '(y, s) ← digits 4 v; s ← lit "_" s;
    '(m, s) ← digits 2 s; s ← lit "_" s;
    '(d, s) ← digits 2 s; s ← lit "_" s;
    '(hh, s) ← digits 2 s; s ← lit "_" s;
    '(mm, s) ← digits 2 s; s ← lit "_" s;
    '(ss, s) ← digits 2 s;
    match s with
    | EmptyString => Some (y, m, d, hh, mm, ss)
    | _ => None
    end
  with
  | Some (y, m, d, hh, mm, ss) =>
      datetime_new (int_of_digits 0 y) (int_of_digits 0 m)
        (int_of_digits 0 d) (int_of_digits 0 hh) (int_of_digits 0 mm)
        (int_of_digits 0 ss)
  | None => Raise ValueError
  end.

(** [datetime.strptime(v, '%Y-%m-%d')] on the strings the wyatt pattern
    lets through. *)
Definition strptime_wyatt (v : string) : result datetime :=
  match
    '(y, s) ← digits 4 v; s ← lit "-" s;
    '(m, s) ← digits 2 s; s ← lit "-" s;
    '(d, s) ← digits 2 s;
    match s with
    | EmptyString => Some (y, m, d)
    | _ => None
    end
  with
  | Some (y, m, d) =>
      datetime_new (int_of_digits 0 y) (int_of_digits 0 m)
        (int_of_digits 0 d) 0 0 0
  | None => Raise ValueError
  end.

Definition converter : Type := pyval -> result pyval.

Definition conv_int : converter := fun v =>
  match v with
  | VStr s => bind (py_int s) (fun n => Ok (VInt n))
  | VInt n => Ok (VInt n)
  | VNone | VDatetime _ => Raise TypeError
  end.

Definition conv_strptime (f : string -> result datetime) : converter :=
  fun v =>
  match v with
  | VStr s => bind (f s) (fun d => Ok (VDatetime d))
  | _ => Raise TypeError
  end.

Definition dispatch_toltec : gmap string converter :=
  list_to_map
    [ ("nwid", conv_int); ("obsid", conv_int); ("subobsid", conv_int);
      ("scanid", conv_int); ("ut", conv_strptime strptime_toltec) ].

Definition dispatch_wyatt : gmap string converter :=
  list_to_map
    [ ("obsid", conv_int); ("subobsid", conv_int); ("scanid", conv_int);
      ("ut", conv_strptime strptime_wyatt) ].

(** [{k: dispatch.get(k, lambda v: v)(v) for k, v in items}]: the items
    are converted in order, and the first conversion that raises ends the
    comprehension. *)
Definition convert_groups (dispatch : gmap string converter)
    (items : list (string * pyval)) : result info_dict :=
  fold_left
    (fun acc kv =>
       bind acc (fun info =>
       bind (default (Ok : converter) (dispatch !! kv.1) kv.2) (fun v =>
       Ok (<[kv.1 := v]> info))))
    items (Ok ∅).

(** *** Post-processing *)

(** [str.lower] on code points 0..255. *)
Definition lower_char (c : ascii) : ascii :=
  let n := nat_of_ascii c in
  if ((65 <=? n) && (n <=? 90)
      || (192 <=? n) && (n <=? 222) && negb (n =? 215))%nat
  then ascii_of_nat (n + 32)
  else c.

Fixpoint lower (s : string) : string :=
  match s with
  | EmptyString => EmptyString
  | String c s' => String (lower_char c) (lower s')
  end.

(** [post_toltec] updates [info] in place; here it returns the updated
    dictionary.  [k not in info] is a test on the keys of the dictionary. *)
Definition post_toltec (info : info_dict) : result info_dict :=
  let info :=
    match info !! "kindstr" with
    | None => <["kindstr" := VStr "timestream"]> info
    | Some _ => info
    end in
  match info !! "fileext" with
  | None => Raise KeyError
  | Some (VStr fileext) =>
      if decide (lower fileext = "nc") then Ok info
      else Ok (<["kindstr" := VStr "ancillary"]> info)
  | Some _ => Raise AttributeError
  end.

Definition post_wyatt (info : info_dict) : result info_dict := Ok info.

(** *** The classifier *)

Record file_pattern : Type := FilePattern {
  fp_match : string -> option (list (string * pyval));
  fp_dispatch : gmap string converter;
  fp_post : info_dict -> result info_dict
}.

Definition file_patterns : list file_pattern :=
  [ FilePattern (fun f => groupdict_toltec <$> re_toltec_file f)
      dispatch_toltec post_toltec;
    FilePattern (fun f => groupdict_wyatt <$> re_wyatt_file f)
      dispatch_wyatt post_wyatt ].

(** The loop over the patterns: the first one that matches decides. *)
Fixpoint first_match (ps : list file_pattern) (filename : string)
  : result (option info_dict) :=
  match ps with
  | [] => Ok None
  | p :: ps' =>
      match fp_match p filename with
      | Some items =>
          bind (convert_groups (fp_dispatch p) items) (fun info =>
          bind (fp_post p info) (fun info =>
          Ok (Some info)))
      | None => first_match ps' filename
      end
  end.

Definition _info_from_filename (filename : string)
  : result (option info_dict) :=
  first_match file_patterns filename.

(** What follows a greedy run: the end of the string, or a character the
    run does not take. *)
Definition stops (p : ascii -> bool) (s : string) : Prop :=
  match s with
  | EmptyString => True
  | String c _ => p c = false
  end.

(** *** The TolTEC file-name grammar, stated on its own

    [toltec{N}_{obsid}_{subobsid}_{scanid}_{UT}[_{kind}].{ext}], with the
    character classes of the pattern. *)

Fixpoint all_chars (p : ascii -> bool) (s : string) : bool :=
  match s with
  | EmptyString => true
  | String c s' => p c && all_chars p s'
  end.

Definition nonempty_of (p : ascii -> bool) (s : string) : Prop :=
  s <> "" /\ all_chars p s = true.

Definition digits_of_len (n : nat) (s : string) : Prop :=
  String.length s = n /\ all_chars is_digit s = true.

Definition ut_toltec_shape (ut : string) : Prop :=
  exists y m d hh mm ss,
    digits_of_len 4 y /\ digits_of_len 2 m /\ digits_of_len 2 d /\
    digits_of_len 2 hh /\ digits_of_len 2 mm /\ digits_of_len 2 ss /\
    ut = y +:+ "_" +:+ m +:+ "_" +:+ d +:+ "_" +:+ hh +:+ "_" +:+ mm
           +:+ "_" +:+ ss.

Definition kind_part (kind : option string) : string :=
  match kind with
  | Some k => "_" +:+ k
  | None => ""
  end.

Definition toltec_grammar (filename : string) (g : toltec_groups) : Prop :=
  nonempty_of is_digit (g_nwid g) /\
  nonempty_of is_digit (g_obsid g) /\
  nonempty_of is_digit (g_subobsid g) /\
  nonempty_of is_digit (g_scanid g) /\
  ut_toltec_shape (g_ut g) /\
  (forall k, g_kindstr g = Some k -> nonempty_of is_kind_char k) /\
  nonempty_of is_dot_char (g_fileext g) /\
  exists eol, (eol = "" \/ eol = String "010"%char "") /\
    filename =
      "toltec" +:+ g_nwid g +:+ "_" +:+ g_obsid g +:+ "_"
        +:+ g_subobsid g +:+ "_" +:+ g_scanid g +:+ "_" +:+ g_ut g
        +:+ kind_part (g_kindstr g) +:+ "." +:+ g_fileext g +:+ eol.

(** The dictionary that the comprehension builds from the groups of a
    TolTEC match whose time stamp parses to [dt]. *)
Definition toltec_info (g : toltec_groups) (dt : datetime) : info_dict :=
  <["fileext" := VStr (g_fileext g)]>
  (<["kindstr" := opt_str (g_kindstr g)]>
  (<["ut" := VDatetime dt]>
  (<["scanid" := VInt (int_of_digits 0 (g_scanid g))]>
  (<["subobsid" := VInt (int_of_digits 0 (g_subobsid g))]>
  (<["obsid" := VInt (int_of_digits 0 (g_obsid g))]>
  (<["nwid" := VInt (int_of_digits 0 (g_nwid g))]>
  (<["instru" := VStr "toltec"]>
  (<["interface" := VStr ("toltec" +:+ g_nwid g)]> ∅)))))))).

(** *** The wyatt file-name grammar, stated on its own

    [wyatt_{UT}_{obsid}_{subobsid}_{scanid}[_{kind}].{ext}] *)

Definition ut_wyatt_shape (ut : string) : Prop :=
  exists y m d,
    digits_of_len 4 y /\ digits_of_len 2 m /\ digits_of_len 2 d /\
    ut = y +:+ "-" +:+ m +:+ "-" +:+ d.

Definition wyatt_grammar (filename : string) (g : wyatt_groups) : Prop :=
  ut_wyatt_shape (w_ut g) /\
  nonempty_of is_digit (w_obsid g) /\
  nonempty_of is_digit (w_subobsid g) /\
  nonempty_of is_digit (w_scanid g) /\
  (forall k, w_kindstr g = Some k -> nonempty_of is_kind_char k) /\
  nonempty_of is_dot_char (w_fileext g) /\
  exists eol, (eol = "" \/ eol = String "010"%char "") /\
    filename =
      "wyatt" +:+ "_" +:+ w_ut g +:+ "_" +:+ w_obsid g +:+ "_"
        +:+ w_subobsid g +:+ "_" +:+ w_scanid g
        +:+ kind_part (w_kindstr g) +:+ "." +:+ w_fileext g +:+ eol.

(** The dictionary that the comprehension builds from the groups of a
    wyatt match whose date parses to [dt]. *)
Definition wyatt_info (g : wyatt_groups) (dt : datetime) : info_dict :=
  <["fileext" := VStr (w_fileext g)]>
  (<["kindstr" := opt_str (w_kindstr g)]>
  (<["scanid" := VInt (int_of_digits 0 (w_scanid g))]>
  (<["subobsid" := VInt (int_of_digits 0 (w_subobsid g))]>
  (<["obsid" := VInt (int_of_digits 0 (w_obsid g))]>
  (<["ut" := VDatetime dt]>
  (<["instru" := VStr "wyatt"]>
  (<["interface" := VStr "wyatt"]> ∅))))))).

(** The spellings of the extension that [lower] takes to [nc]. *)
Definition nc_spellings : list string := ["nc"; "NC"; "Nc"; "nC"].

(** One step of the comprehension of [convert_groups]. *)
Definition convert_step (dispatch : gmap string converter)
    (acc : result info_dict) (kv : string * pyval) : result info_dict :=
  bind acc (fun info =>
  bind (default (Ok : converter) (dispatch !! kv.1) kv.2) (fun v =>
  Ok (<[kv.1 := v]> info))).

End FileSpec.


(** ** [tolteca/web/templates/obs_planner/toltec.py] *)

Module ObsPlanner.

Local Open Scope R_scope.

Definition image : Type := list (list R).

(** [astropy.stats.gaussian_sigma_to_fwhm] *)
Definition GAUSSIAN_SIGMA_TO_FWHM : R := 2 * sqrt (2 * ln 2).

Definition sens_coeff : R := sqrt 2.

(** [a.max()]: raises on an array without elements. *)
Definition image_max (im : image) : result R :=
  match concat im with
  | [] => Raise ValueError
  | x :: xs => Ok (fold_left Rmax xs x)
  end.

(** [a > v] *)
Definition image_gt (im : image) (v : R) : list (list bool) :=
  (fun row : list R =>
     (fun c => if Rlt_dec v c then true else false) <$> row)
  <$> (im : list (list R)).

(** [im[i, j]] *)
Definition pixel (im : image) (i j : nat) : option R :=
  (im : list (list R)) !! i ≫= fun row => row !! j.

Definition beam_area_pix2 (a_fwhm b_fwhm cov_pixarea : R) : R :=
  let a_stddev := a_fwhm / GAUSSIAN_SIGMA_TO_FWHM in
  let b_stddev := b_fwhm / GAUSSIAN_SIGMA_TO_FWHM in
  let beam_area := 2 * PI * a_stddev * b_stddev in
  beam_area / cov_pixarea.

(** [out = np.zeros(shape); out[m] = f(cov[m])] *)
Definition assign_where (f : R -> R) (m : list (list bool)) (cov : image)
  : image :=
  zip_with (zip_with (fun (b : bool) c => if b then f c else 0)) m cov.

(** [cov_data_mJy_per_beam] of [make_traj_data]. *)
Definition cov_data_mJy_per_beam (a_fwhm b_fwhm cov_pixarea nefd : R)
    (cov_data : image) : result image :=
  bind (image_max cov_data) (fun cov_max =>
  let m_cov := image_gt cov_data (0.02 * cov_max) in
  Ok (assign_where
        (fun c => sens_coeff * nefd
                  / sqrt (c * beam_area_pix2 a_fwhm b_fwhm cov_pixarea))
        m_cov cov_data)).

(** [cov_ctr = data.copy(); cov_ctr[~m_cov] = 0] *)
Definition zero_outside (m : list (list bool)) (data : image) : image :=
  zip_with (zip_with (fun (b : bool) c => if b then c else 0)) m data.

Inductive coverage_map_type : Type := CovDepth | CovTime.

(** The image handed to the contour search: the coverage image in the
    configured unit, zeroed outside [m_cov]. *)
Definition cov_ctr (kind : coverage_map_type)
    (a_fwhm b_fwhm cov_pixarea nefd : R) (cov_data : image) : result image :=
  bind (image_max cov_data) (fun cov_max =>
  let m_cov := image_gt cov_data (0.02 * cov_max) in
  bind (match kind with
        | CovDepth =>
            cov_data_mJy_per_beam a_fwhm b_fwhm cov_pixarea nefd cov_data
        | CovTime => Ok cov_data
        end) (fun data =>
  Ok (zero_outside m_cov data))).

Definition contour : Type := list (Z * Z).

(** The [for ... else] over the contours: the first one with more than two
    points, otherwise the last one visited; with no contour at all the
    loop variable is unbound. *)
Definition select_contour (cxy : list contour) : result contour :=
  match find (fun c : contour => (2 <? length c)%nat) cxy with
  | Some c => Ok c
  | None =>
      match last cxy with
      | Some c => Ok c
      | None => Raise NameError
      end
  end.

Section Outline.

(** OpenCV: [cv2.normalize] followed by [cv2.findContours],
    [cv2.arcLength] and [cv2.approxPolyDP]. *)
Variable findContours : image -> list contour.
Variable arcLength : contour -> bool -> R.
Variable approxPolyDP : contour -> R -> bool -> contour.

Definition outline (kind : coverage_map_type)
    (a_fwhm b_fwhm cov_pixarea nefd : R) (cov_data : image)
  : result contour :=
  bind (cov_ctr kind a_fwhm b_fwhm cov_pixarea nefd cov_data) (fun im =>
  bind (select_contour (findContours im)) (fun cxy =>
  Ok (approxPolyDP cxy (0.002 * arcLength cxy true) true))).

End Outline.

End ObsPlanner.

(** ** [tolteca/reduce/toltec/__init__.py] *)

Module Reduce.

(** A row of the index table of a data set. *)
Record entry : Type := Entry {
  obsnum : Z;
  subobsnum : Z;
  scannum : Z;
  master : string;
  repeat_ : Z;
  instru : string;
  interface : string;
  source : string
}.

(** [{'filepath': ..., 'meta': {'interface': ...}}] *)
Record input_item : Type := InputItem {
  filepath : string;
  meta_interface : string
}.

(** [{'meta': {'name': ...}, 'data_items': ..., 'cal_items': ...}] *)
Record resolved_input : Type := ResolvedInput {
  meta_name : string;
  data_items : list input_item;
  cal_items : list input_item
}.

(** [str(n)] of an integer. *)
Definition str_of_int (n : Z) : string := NilZero.string_of_int (Z.to_int n).

Section ResolveInput.

(** [_fix_apt] reads the table at [source], writes a trimmed copy and
    returns the path of the copy; it raises when the table cannot be
    read. *)
Variable _fix_apt : string -> result string.

(** The loop over the rows of a group: a TolTEC row or an [lmt] row is a
    data item, an [apt] row is a calibration item (with the fixed source),
    any other row is skipped. *)
Fixpoint route_entries (tbl : list entry)
    (data_items cal_items : list input_item)
  : result (list input_item * list input_item) :=
  match tbl with
  | [] => Ok (data_items, cal_items)
  | e :: rest =>
      if decide (instru e = "toltec") then
        route_entries rest
          (data_items ++ [InputItem (source e) (interface e)]) cal_items
      else if decide (interface e = "lmt") then
        route_entries rest
          (data_items ++ [InputItem (source e) (interface e)]) cal_items
      else if decide (interface e = "apt") then
        bind (_fix_apt (source e)) (fun source' =>
        route_entries rest data_items
          (cal_items ++ [InputItem source' (interface e)]))
      else route_entries rest data_items cal_items
  end.

(** [resolve_input_item] on a group with first row [d0]; the groups of
    [group_by] have at least one row. *)
Definition resolve_input_item (d0 : entry) (rest : list entry)
  : result resolved_input :=
  let name :=
    str_of_int (obsnum d0) +:+ "_" +:+ str_of_int (subobsnum d0)
      +:+ "_" +:+ str_of_int (scannum d0) in
  bind (route_entries (d0 :: rest) [] []) (fun '(data_items, cal_items) =>
  Ok (ResolvedInput name data_items cal_items)).

End ResolveInput.

(** The rows that become data items, and those that become calibration
    items. *)
Definition is_data_entry (e : entry) : Prop :=
  instru e = "toltec" \/ interface e = "lmt".

Definition is_cal_entry (e : entry) : Prop :=
  instru e <> "toltec" /\ interface e = "apt".

End Reduce.

(** ** [tolteca/web/frontend/pages/thermometry.py] *)

Module Thermometry.

(** A channel of the thermometry file: its label and its samples, a time
    (seconds, as [datetime64[s]]) and a temperature each; the two
    variables of a channel have the dimension [times]. *)
Record channel : Type := Channel {
  channel_label : string;
  samples : list (Z * Q)
}.

(** A trace of the figure. *)
Record trace : Type := Trace {
  name : string;
  xy : list (Z * Q)
}.

(** [a[-n:]] for a positive [n] *)
Definition last_n {A} (n : nat) (l : list A) : list A :=
  drop (length l - n) l.

(** [np.max] of a list of times: raises [ValueError] on an empty list. *)
Definition np_max (l : list Z) : result Z :=
  match l with
  | [] => Raise ValueError
  | x :: xs => Ok (fold_left Z.max xs x)
  end.

Definition n_times : nat := 100.

(** Twenty-four hours, in seconds. *)
Definition day : Z := 86400.

(** [get_traces]: the last [n_times] samples of every channel, of which
    those are kept that are at most a day older than the latest last
    sample and have a positive temperature.  [np.max] of no time at all
    raises [ValueError], which the [except RuntimeError] does not
    catch. *)
Definition get_traces (channels : list channel) : result (list trace) :=
  let result :=
    (fun ch => Trace (channel_label ch) (last_n n_times (samples ch)))
    <$> channels in
  bind (np_max (omap (fun t => fst <$> last (xy t)) result))
    (fun time_latest =>
  Ok ((fun t =>
         Trace (name t)
           (List.filter (fun s : Z * Q =>
                           (time_latest - day <=? s.1)%Z
                           && negb (Qle_bool s.2 0))
              (xy t)))
      <$> result)).

End Thermometry.

(** * Properties *)

Import Simu FileSpec ObsPlanner Reduce.

(** ** The time-chunk planner *)

Section SliceFacts.

Context {A : Type}.
Implicit Types l : list A.

Lemma slice_bound_nonneg len i :
  (0 <= len)%Z -> (0 <= i)%Z -> slice_bound len i = Z.min len i.
Proof.
  intros Hlen Hi. unfold slice_bound.
  destruct (Z.ltb_spec i 0); lia.
Qed.

(** Between non-negative bounds a slice is [take] after [drop]. *)
Lemma slice_take_drop l (a b : nat) :
  (a <= b)%nat ->
  slice (Z.of_nat a) (Z.of_nat b) l = take (b - a) (drop a l).
Proof.
  intros Hab. unfold slice.
  rewrite !slice_bound_nonneg by lia.
  destruct (Nat.le_gt_cases (length l) a) as [Hge|Hlt].
  - rewrite (drop_ge l a) by lia.
    rewrite (drop_ge l) by lia. by rewrite !take_nil.
  - replace (Z.to_nat (Z.min (Z.of_nat (length l)) (Z.of_nat a))) with a
      by lia.
    destruct (Nat.le_gt_cases (length l) b) as [Hb|Hb].
    + rewrite !take_ge; [done | rewrite length_drop; lia
                        | rewrite length_drop; lia].
    + f_equal. lia.
Qed.

Lemma concat_take_drop_chunks l (k m : nat) :
  concat (map (fun i : nat => take k (drop (i * k) l)) (seq 0 m))
  = take (m * k) l.
Proof.
  induction m as [|m IH].
  - by rewrite take_0.
  - rewrite seq_S, map_app, concat_app, IH. simpl.
    rewrite app_nil_r, take_take_drop. f_equal. lia.
Qed.

End SliceFacts.

Lemma split_chunks_nat t (k m : nat) :
  split_chunks t (Z.of_nat k) (Z.of_nat m)
  = map (fun i : nat => take k (drop (i * k) t)) (seq 0 m).
Proof.
  unfold split_chunks. rewrite Nat2Z.id.
  apply map_ext. intros i.
  replace (Z.of_nat i * Z.of_nat k)%Z with (Z.of_nat (i * k)) by lia.
  replace ((Z.of_nat i + 1) * Z.of_nat k)%Z with (Z.of_nat (i * k + k))
    by lia.
  rewrite slice_take_drop by lia. f_equal. lia.
Qed.

Lemma length_split_chunks t k m :
  length (split_chunks t k m) = Z.to_nat m.
Proof. unfold split_chunks. by rewrite length_map, length_seq. Qed.

(** The chunk count is the ceiling of [n_times / n_times_per_chunk]. *)
Lemma count_chunks_pos n k :
  (0 <= n)%Z -> (0 < k)%Z ->
  exists m, count_chunks n k = Ok m /\
            (n <= m * k)%Z /\ (m * k < n + k)%Z /\ (0 <= m)%Z.
Proof.
  intros Hn Hk. unfold count_chunks, bool_of_int.
  destruct (Z.eqb_spec k 0) as [->|_]; [lia|].
  eexists; split; [reflexivity|].
  pose proof (Z.div_mod n k ltac:(lia)) as Hdm.
  pose proof (Z.mod_pos_bound n k Hk) as Hm.
  pose proof (Z.div_pos n k Hn Hk) as Hd.
  destruct (Z.eqb_spec (n mod k) 0); nia.
Qed.

Lemma split_chunks_concat t k m :
  (0 < k)%Z -> (0 <= m)%Z -> (Z.of_nat (length t) <= m * k)%Z ->
  concat (split_chunks t k m) = t.
Proof.
  intros Hk Hm Hcover.
  rewrite <- (Z2Nat.id k), <- (Z2Nat.id m) by lia.
  rewrite split_chunks_nat, concat_take_drop_chunks.
  apply take_ge. nia.
Qed.

(** No chunk of the split is empty. *)
Lemma split_chunks_nonempty t k m :
  (0 < k)%Z -> (0 <= m)%Z -> (m * k < Z.of_nat (length t) + k)%Z ->
  Forall (fun c => c <> []) (split_chunks t k m).
Proof.
  intros Hk Hm Htight.
  rewrite <- (Z2Nat.id k), <- (Z2Nat.id m) by lia.
  rewrite split_chunks_nat. apply List.Forall_forall.
  intros c [i [<- Hi]]%in_map_iff. apply in_seq in Hi.
  intros Hnil. apply (f_equal length) in Hnil.
  rewrite length_take, length_drop in Hnil. simpl in Hnil. nia.
Qed.

Lemma merge_last_chunk_concat n t_chunks :
  concat (merge_last_chunk n t_chunks) = concat t_chunks.
Proof.
  unfold merge_last_chunk.
  destruct (2 <=? n)%Z; [|done].
  destruct (rev t_chunks) as [|last_chunk [|prev_chunk front]] eqn:Hrev;
    [done..|].
  destruct (_ <? _)%Z; [|done].
  rewrite <- (rev_involutive t_chunks), Hrev. simpl.
  rewrite !concat_app. simpl. by rewrite !app_nil_r, <- !app_assoc.
Qed.

Lemma merge_last_chunk_length n t_chunks :
  (1 <= length t_chunks)%nat ->
  (1 <= length (merge_last_chunk n t_chunks))%nat.
Proof.
  intros Hlen. unfold merge_last_chunk.
  destruct (2 <=? n)%Z; [|done].
  destruct (rev t_chunks) as [|last_chunk [|prev_chunk front]]; [done..|].
  destruct (_ <? _)%Z; [|done].
  rewrite length_app. simpl. lia.
Qed.

Lemma merge_last_chunk_nonempty n t_chunks :
  Forall (fun c => c <> []) t_chunks ->
  Forall (fun c => c <> []) (merge_last_chunk n t_chunks).
Proof.
  intros Hall. unfold merge_last_chunk.
  destruct (2 <=? n)%Z; [|done].
  destruct (rev t_chunks) as [|last_chunk [|prev_chunk front]] eqn:Hrev;
    [done..|].
  destruct (_ <? _)%Z; [|done].
  rewrite <- (rev_involutive t_chunks), Hrev in Hall. simpl in Hall.
  rewrite <- app_assoc in Hall.
  apply Forall_app in Hall as [Hfront Hrest].
  apply Forall_app. split; [done|].
  apply Forall_cons in Hrest as [Hprev _].
  apply Forall_cons. split; [|done].
  destruct prev_chunk; [done|]. done.
Qed.

(** *** Rounding and the sample grid *)

Lemma int_of_float_ge_1 (x : Q) : (1 <= x)%Q -> (1 <= int_of_float x)%Z.
Proof.
  unfold Qle, int_of_float. simpl. intros Hx.
  apply Z.quot_le_lower_bound; lia.
Qed.

Lemma int_of_float_small (x : Q) :
  (0 < x)%Q -> (x < 1)%Q -> int_of_float x = 0%Z.
Proof.
  unfold Qlt, int_of_float. simpl. intros H0 H1.
  apply Z.quot_small. lia.
Qed.

Lemma length_arange stop step :
  length (arange stop step) = Z.to_nat (Qceiling (stop / step)%Q).
Proof. unfold arange. by rewrite length_map, length_seq. Qed.

Lemma time_grid_eq t_exp f_smp :
  (0 < f_smp)%Q ->
  time_grid t_exp f_smp
  = map (fun i : nat => (inject_Z (Z.of_nat i) * (1 / f_smp))%Q)
        (seq 0 (Z.to_nat (Qceiling (t_exp * f_smp)%Q))).
Proof.
  intros Hf. unfold time_grid, arange.
  assert (t_exp / (1 / f_smp) == t_exp * f_smp)%Q as ->; [|done].
  field. intros Hz. rewrite Hz in Hf. by apply Qlt_irrefl in Hf.
Qed.

Lemma length_time_grid t_exp f_smp :
  (0 < f_smp)%Q ->
  length (time_grid t_exp f_smp) = Z.to_nat (Qceiling (t_exp * f_smp)%Q).
Proof.
  intros Hf. by rewrite time_grid_eq, length_map, length_seq.
Qed.

Lemma Qceiling_pos (x : Q) : (0 < x)%Q -> (0 < Qceiling x)%Z.
Proof.
  intros Hx. pose proof (Qle_ceiling x) as Hc.
  assert (0 < inject_Z (Qceiling x))%Q as Hlt by (eapply Qlt_le_trans; eauto).
  unfold Qlt in Hlt. simpl in Hlt. lia.
Qed.

(** Multiples of a positive step, taken in order, increase strictly. *)
Lemma multiples_sorted (step : Q) (a n : nat) :
  (0 < step)%Q ->
  StronglySorted Qlt
    (map (fun i : nat => (inject_Z (Z.of_nat i) * step)%Q) (seq a n)).
Proof.
  intros Hstep. revert a. induction n as [|n IH]; intros a; simpl.
  - constructor.
  - constructor; [apply IH|].
    apply List.Forall_forall. intros x [i [<- Hi]]%in_map_iff.
    apply in_seq in Hi.
    apply Qmult_lt_compat_r; [done|].
    rewrite <- Zlt_Qlt. lia.
Qed.

(** *** What the planner returns *)

Lemma n_times_per_chunk_pos f_smp chunk_len :
  (1 <= chunk_len * f_smp)%Q -> (1 <= n_times_per_chunk_of f_smp chunk_len)%Z.
Proof. apply int_of_float_ge_1. Qed.

(** C1, with the sample count the code has: for positive [t_exp], [f_smp]
    and [chunk_len] with [chunk_len * f_smp >= 1] the planner returns, and
    its chunks, concatenated in order, are the sample array [t] of the
    planner itself, [np.arange(0, t_exp, 1 / f_smp)], with its [N = len(t)]
    samples: each index of [t] once, none skipped, the times strictly
    increasing; no chunk is empty, [N > 0] and there is at least one
    chunk. *)
Theorem make_time_chunks_tiles_samples (t_exp f_smp chunk_len : Q) :
  (0 < t_exp)%Q -> (0 < f_smp)%Q -> (0 < chunk_len)%Q ->
  (1 <= chunk_len * f_smp)%Q ->
  exists t_chunks,
    _make_time_chunks t_exp f_smp chunk_len = Ok t_chunks /\
    concat t_chunks = time_grid t_exp f_smp /\
    StronglySorted Qlt (concat t_chunks) /\
    Forall (fun c => c <> []) t_chunks /\
    (0 < length (concat t_chunks))%nat /\
    (1 <= length t_chunks)%nat.
Proof.
  intros Ht Hf Hc Hprod.
  pose proof (n_times_per_chunk_pos _ _ Hprod) as Hk.
  set (t := time_grid t_exp f_smp).
  assert (0 < Qceiling (t_exp * f_smp)%Q)%Z as HN.
  { apply Qceiling_pos.
    rewrite <- (Qmult_0_l f_smp). by apply Qmult_lt_compat_r. }
  assert (length t = Z.to_nat (Qceiling (t_exp * f_smp)%Q)) as Hlen
    by (by apply length_time_grid).
  destruct (count_chunks_pos (Z.of_nat (length t))
              (n_times_per_chunk_of f_smp chunk_len))
    as (m & Hm & Hcover & Htight & Hm0); [lia..|].
  assert (concat (merge_last_chunk m
            (split_chunks t (n_times_per_chunk_of f_smp chunk_len) m)) = t)
    as Hconcat.
  { rewrite merge_last_chunk_concat. apply split_chunks_concat; lia. }
  eexists. split.
  { unfold _make_time_chunks. fold t. rewrite Hm. reflexivity. }
  rewrite Hconcat. repeat split.
  - unfold t. rewrite time_grid_eq by done. apply multiples_sorted.
    apply Qlt_shift_div_l; [done|]. by rewrite Qmult_0_l.
  - apply merge_last_chunk_nonempty, split_chunks_nonempty; lia.
  - lia.
  - apply merge_last_chunk_length. rewrite length_split_chunks. nia.
Qed.

Lemma make_time_chunks_tiles_samples_witness :
  ((0 < 5 # 2)%Q /\ (0 < 1)%Q /\ (0 < 1)%Q /\ (1 <= 1 * 1)%Q) /\
  exists t_chunks,
    _make_time_chunks (5 # 2) 1 1 = Ok t_chunks /\
    concat t_chunks = time_grid (5 # 2) 1 /\
    StronglySorted Qlt (concat t_chunks) /\
    Forall (fun c => c <> []) t_chunks /\
    (0 < length (concat t_chunks))%nat /\
    (1 <= length t_chunks)%nat.
Proof.
  split.
  - repeat split; vm_compute; congruence.
  - apply (make_time_chunks_tiles_samples (5 # 2) 1 1);
      vm_compute; congruence.
Defined.

(** C1 as stated fails: with [t_exp = 2.5 s], [f_smp = 1 Hz] and
    [chunk_len = 1 s] the chunks hold the three samples 0, 1, 2, and
    [floor(t_exp * f_smp)] is 2. *)
Lemma make_time_chunks_count_not_floor :
  (0 < 5 # 2)%Q /\ (0 < 1)%Q /\ (1 <= 1 * 1)%Q /\
  exists t_chunks,
    _make_time_chunks (5 # 2) 1 1 = Ok t_chunks /\
    length (concat t_chunks) = 3%nat /\
    length (concat t_chunks) <> Z.to_nat (Qfloor ((5 # 2) * 1)%Q).
Proof.
  repeat split; try (vm_compute; congruence).
  eexists. split; [vm_compute; reflexivity|].
  split; vm_compute; congruence.
Qed.

(** C2, with the merge condition the code tests: when the split before the
    merge step ends with a chunk of exactly one sample after a chunk of
    more than ten samples, the planner returns one chunk fewer, the last
    one being the last two of the split joined. *)
Theorem make_time_chunks_merges_short_tail
    (t_exp f_smp chunk_len : Q) (front : list (list Q))
    (prev_chunk last_chunk : list Q) :
  naive_time_chunks t_exp f_smp chunk_len
    = Ok (front ++ [prev_chunk; last_chunk]) ->
  length last_chunk = 1%nat ->
  (10 < length prev_chunk)%nat ->
  _make_time_chunks t_exp f_smp chunk_len
    = Ok (front ++ [prev_chunk ++ last_chunk]) /\
  S (length (front ++ [prev_chunk ++ last_chunk]))
    = length (front ++ [prev_chunk; last_chunk]).
Proof.
  unfold naive_time_chunks, _make_time_chunks.
  destruct (count_chunks _ _) as [m|e]; simpl; [|discriminate].
  intros [= Hsplit] Hlast Hprev. split.
  - f_equal. unfold merge_last_chunk.
    assert (2 <= m)%Z as Hm.
    { apply (f_equal length) in Hsplit.
      rewrite length_split_chunks, length_app in Hsplit.
      simpl in Hsplit. lia. }
    destruct (Z.leb_spec 2 m); [|lia].
    rewrite Hsplit, rev_app_distr. simpl.
    destruct (Z.ltb_spec (Z.of_nat (length last_chunk) * 10)
                (Z.of_nat (length prev_chunk))); [|lia].
    by rewrite rev_involutive.
  - rewrite !length_app. simpl. lia.
Qed.

Lemma make_time_chunks_merges_short_tail_witness :
  exists front prev_chunk last_chunk,
    naive_time_chunks 12 1 11 = Ok (front ++ [prev_chunk; last_chunk]) /\
    length last_chunk = 1%nat /\
    (10 < length prev_chunk)%nat /\
    _make_time_chunks 12 1 11 = Ok (front ++ [prev_chunk ++ last_chunk]) /\
    S (length (front ++ [prev_chunk ++ last_chunk]))
      = length (front ++ [prev_chunk; last_chunk]).
Proof.
  exists [],
    (map (fun i : nat => (inject_Z (Z.of_nat i) * (1 / 1))%Q) (seq 0 11)),
    [(inject_Z 11 * (1 / 1))%Q].
  assert (naive_time_chunks 12 1 11
          = Ok ([] ++ [map (fun i : nat => (inject_Z (Z.of_nat i) * (1 / 1))%Q)
                         (seq 0 11); [(inject_Z 11 * (1 / 1))%Q]]))
    as Hnaive by (vm_compute; reflexivity).
  assert (length [(inject_Z 11 * (1 / 1))%Q] = 1%nat) as Hlast
    by reflexivity.
  assert (10 < length (map (fun i : nat => (inject_Z (Z.of_nat i) * (1 / 1))%Q)
                         (seq 0 11)))%nat as Hprev
    by (vm_compute; lia).
  split; [exact Hnaive|]. split; [exact Hlast|]. split; [exact Hprev|].
  exact (make_time_chunks_merges_short_tail 12 1 11 [] _ _
           Hnaive Hlast Hprev).
Defined.

(** C2 as stated fails when the second-to-last chunk has exactly ten
    samples: with [t_exp = 11 s], [f_smp = 1 Hz], [chunk_len = 10 s] the
    split is ten samples then one, and the planner returns it unmerged. *)
Lemma make_time_chunks_keeps_tail_after_ten :
  exists front prev_chunk last_chunk,
    naive_time_chunks 11 1 10 = Ok (front ++ [prev_chunk; last_chunk]) /\
    length last_chunk = 1%nat /\
    (10 <= length prev_chunk)%nat /\
    _make_time_chunks 11 1 10 = Ok (front ++ [prev_chunk; last_chunk]) /\
    _make_time_chunks 11 1 10 <> Ok (front ++ [prev_chunk ++ last_chunk]).
Proof.
  exists [],
    (map (fun i : nat => (inject_Z (Z.of_nat i) * (1 / 1))%Q) (seq 0 10)),
    [(inject_Z 10 * (1 / 1))%Q].
  split; [vm_compute; reflexivity|].
  split; [reflexivity|].
  split; [vm_compute; lia|].
  split; [vm_compute; reflexivity|].
  vm_compute. discriminate.
Qed.

(** C10: for positive [t_exp] and [f_smp] with [0 < chunk_len * f_smp < 1]
    the per-chunk sample count is zero and the planner raises
    [ZeroDivisionError]; so, on positive inputs, a planner that returns has
    [chunk_len * f_smp >= 1]. *)
Theorem make_time_chunks_needs_whole_sample (t_exp f_smp chunk_len : Q) :
  (0 < t_exp)%Q -> (0 < f_smp)%Q -> (0 < chunk_len * f_smp)%Q ->
  ((chunk_len * f_smp < 1)%Q ->
     n_times_per_chunk_of f_smp chunk_len = 0%Z /\
     _make_time_chunks t_exp f_smp chunk_len = Raise ZeroDivisionError) /\
  (returns (_make_time_chunks t_exp f_smp chunk_len) ->
     (1 <= chunk_len * f_smp)%Q).
Proof.
  intros Ht Hf Hpos.
  assert ((chunk_len * f_smp < 1)%Q ->
          n_times_per_chunk_of f_smp chunk_len = 0%Z /\
          _make_time_chunks t_exp f_smp chunk_len = Raise ZeroDivisionError)
    as Hsmall.
  { intros Hlt.
    assert (n_times_per_chunk_of f_smp chunk_len = 0%Z) as Hk
      by (by apply int_of_float_small).
    split; [done|].
    unfold _make_time_chunks, count_chunks. by rewrite Hk. }
  split; [done|].
  intros [t_chunks Hret].
  destruct (Qlt_le_dec (chunk_len * f_smp) 1) as [Hlt|Hge]; [|done].
  destruct (Hsmall Hlt) as [_ Hraise]. congruence.
Qed.

Lemma make_time_chunks_needs_whole_sample_witness :
  ((0 < 12)%Q /\ (0 < 1)%Q /\ (0 < (1 # 2) * 1)%Q /\ ((1 # 2) * 1 < 1)%Q) /\
  n_times_per_chunk_of 1 (1 # 2) = 0%Z /\
  _make_time_chunks 12 1 (1 # 2) = Raise ZeroDivisionError.
Proof.
  assert (0 < 12)%Q as Ht by reflexivity.
  assert (0 < 1)%Q as Hf by reflexivity.
  assert (0 < (1 # 2) * 1)%Q as Hpos by reflexivity.
  assert ((1 # 2) * 1 < 1)%Q as Hlt by reflexivity.
  split; [done|].
  exact (proj1 (make_time_chunks_needs_whole_sample 12 1 (1 # 2)
                  Ht Hf Hpos) Hlt).
Defined.

(** *** The exposure time of a run *)

Lemma make_time_chunks_returns t_exp f_smp chunk_len :
  (0 < f_smp)%Q -> (1 <= chunk_len * f_smp)%Q ->
  returns (_make_time_chunks t_exp f_smp chunk_len).
Proof.
  intros Hf Hprod.
  pose proof (n_times_per_chunk_pos _ _ Hprod) as Hk.
  unfold _make_time_chunks, count_chunks.
  destruct (Z.eqb_spec (n_times_per_chunk_of f_smp chunk_len) 0); [lia|].
  by eexists.
Qed.


(** The loop over the chunks writes the evaluations of the chunks in
    order.  When it ends normally every chunk has been written; when it
    raises, what has been written is the evaluation of the chunks before
    the one whose evaluation raised, and the error is that one's. *)
Lemma write_chunks_prefix {TOD : Type} (tod_eval : list Q -> result TOD)
    (t_chunks : list (list Q)) (written : list TOD) :
  exists outs,
    (write_chunks tod_eval t_chunks written).1 = written ++ outs /\
    Forall2 (fun t d => tod_eval t = Ok d)
      (take (length outs) t_chunks) outs /\
    ((write_chunks tod_eval t_chunks written).2 = Ok tt ->
       length outs = length t_chunks) /\
    (forall e,
       (write_chunks tod_eval t_chunks written).2 = Raise e ->
       exists t, t_chunks !! length outs = Some t /\ tod_eval t = Raise e).
Proof.
  revert written. induction t_chunks as [|t rest IH]; intros written.
  - exists []. simpl. rewrite app_nil_r.
    split; [done|]. split; [constructor|]. split; [done|]. discriminate.
  - simpl. destruct (tod_eval t) as [d|e0] eqn:Hev.
    + destruct (IH (written ++ [d])) as (outs & Hw & Hall & Hok & Hraise).
      exists (d :: outs). simpl.
      split; [by rewrite Hw, <- app_assoc|].
      split; [by constructor|].
      split; [intros Hs; f_equal; by apply Hok|done].
    + exists []. simpl. rewrite app_nil_r.
      split; [done|]. split; [constructor|]. split; [discriminate|].
      intros e [= <-]. by exists t.
Qed.

Lemma run_time_plan_spec cfg m_mapping plan :
  run_time_plan cfg m_mapping = Ok plan ->
  plan_t_exp plan = exposure_time (obs_params cfg) m_mapping /\
  _make_time_chunks (exposure_time (obs_params cfg) m_mapping)
      (f_smp_probing (obs_params cfg)) (chunk_len (perf_params cfg))
    = Ok (plan_t_chunks plan) /\
  linspace (exposure_time (obs_params cfg) m_mapping)
      (pre_run_setup_time_grid_size (perf_params cfg))
    = Ok (plan_pre_run_setup_time_grid plan).
Proof.
  unfold run_time_plan.
  destruct (_make_time_chunks _ _ _) as [t_chunks|e]; simpl; [|discriminate].
  destruct (linspace _ _) as [grid|e]; simpl; [|discriminate].
  by intros [= <-].
Qed.




(** ** The configuration schema *)

Lemma filter_ext_elem_of {A} (P1 P2 : A -> Prop)
    `{!forall x, Decision (P1 x), !forall x, Decision (P2 x)} (l : list A) :
  (forall x, x ∈ l -> P1 x <-> P2 x) -> filter P1 l = filter P2 l.
Proof.
  induction l as [|a l IH]; intros Hiff; [done|].
  rewrite !filter_cons.
  rewrite IH by (intros x Hx; apply Hiff; by right).
  apply decide_ext, Hiff. by left.
Qed.

Section ValidateFacts.

Variable s : dataclass_schema.

(** A key that is no field takes no part in the validation of the items. *)
Lemma validate_items_skip_unknown items1 key value items2 :
  find_field s key = None ->
  validate_items s (items1 ++ (key, value) :: items2)
  = validate_items s (items1 ++ items2).
Proof.
  intros Hkey. induction items1 as [|[k v] items1 IH]; simpl.
  - by rewrite Hkey.
  - by rewrite IH.
Qed.

Lemma find_field_None key f :
  find_field s key = None -> f ∈ fields s -> field_name f <> key.
Proof.
  unfold find_field. intros Hnone Hf Heq.
  apply list_elem_of_In in Hf.
  pose proof (find_none _ _ Hnone f Hf) as Hb. simpl in Hb.
  by apply bool_decide_eq_false in Hb.
Qed.

Lemma missing_keys_skip_unknown items1 key value items2 :
  find_field s key = None ->
  missing_keys s (items1 ++ (key, value) :: items2)
  = missing_keys s (items1 ++ items2).
Proof.
  intros Hkey. unfold missing_keys.
  apply filter_ext_elem_of. intros name Hname.
  apply list_elem_of_fmap in Hname as (f & -> & Hf).
  apply list_elem_of_filter in Hf as [_ Hf].
  pose proof (find_field_None key f Hkey Hf) as Hne.
  rewrite !fmap_app, fmap_cons. simpl.
  rewrite !elem_of_app, elem_of_cons. tauto.
Qed.

(** With [ignore_extra_keys] set, a key that is no field is dropped: the
    document validates as it does without that key. *)
Lemma validate_ignores_extra_key items1 key value items2 :
  ignore_extra_keys s = true ->
  find_field s key = None ->
  validate s (Mapping (items1 ++ (key, value) :: items2))
  = validate s (Mapping (items1 ++ items2)).
Proof.
  intros Hignore Hkey. unfold validate.
  rewrite validate_items_skip_unknown, missing_keys_skip_unknown by done.
  rewrite Hignore.
  destruct (validate_items s (items1 ++ items2)) as [new|e]; simpl; [|done].
  destruct (missing_keys s (items1 ++ items2)); [|done].
  by do 2 destruct (wrong_keys s _).
Qed.

(** Without [ignore_extra_keys], a key that is no field makes the
    validation raise. *)
Lemma validate_rejects_extra_key items key :
  ignore_extra_keys s = false ->
  key ∈ items.*1 ->
  find_field s key = None ->
  exists e, validate s (Mapping items) = Raise e.
Proof.
  intros Hstrict Hin Hkey. unfold validate.
  destruct (validate_items s items) as [new|e]; simpl; [|by eexists].
  destruct (missing_keys s items); [|by eexists].
  destruct (wrong_keys s items) as [|k ks] eqn:Hwrong.
  - exfalso. eapply (filter_nil_not_elem_of _ _ key Hwrong); done.
  - rewrite Hstrict. by eexists.
Qed.

(** A value that its field's schema rejects makes the validation of the
    document raise. *)
Lemma validate_items_field_raises items key value f e :
  (key, value) ∈ items ->
  find_field s key = Some f ->
  field_schema f value = Raise e ->
  exists e', validate_items s items = Raise e'.
Proof.
  intros Hin Hf Hraise.
  induction items as [|[k v] items IH]; [by apply elem_of_nil in Hin|].
  simpl. apply elem_of_cons in Hin as [[= <- <-]|Hin].
  - rewrite Hf, Hraise. by eexists.
  - destruct (IH Hin) as [e' He'].
    destruct (find_field s k) as [f'|]; [|by eexists].
    destruct (field_schema f' v); simpl; [|by eexists].
    rewrite He'. by eexists.
Qed.

Lemma validate_field_raises items key value f e :
  (key, value) ∈ items ->
  find_field s key = Some f ->
  field_schema f value = Raise e ->
  exists e', validate s (Mapping items) = Raise e'.
Proof.
  intros Hin Hf Hraise.
  destruct (validate_items_field_raises items key value f e Hin Hf Hraise)
    as [e' He'].
  unfold validate. rewrite He'. by eexists.
Qed.

End ValidateFacts.

Section SimuSchemaFacts.

Variable PhysicalTypeSchema : string -> node -> result node.
Variable instrument_schema mapping_schema : node -> result node.
Variable sources_schema plots_schema exports_schema : node -> result node.
Variable str_schema bool_schema : node -> result node.

Let obs_schema := ObsParamsConfig_schema PhysicalTypeSchema.
Let perf_schema := PerfParamsConfig_schema PhysicalTypeSchema.
Let simu_schema :=
  SimuConfig_schema PhysicalTypeSchema instrument_schema mapping_schema
    sources_schema plots_schema exports_schema str_schema bool_schema.

(** C7, with the flags the dataclasses carry: the [simu] schema has
    [ignore_extra_keys] set, so a top-level key that is no field is
    tolerated and dropped (the document validates exactly as without it);
    the [obs_params] and [perf_params] schemas do not, so a key that is no
    field of the section makes the validation of the whole document
    raise. *)
Theorem simu_schema_extra_keys :
  (forall items1 key value items2,
     find_field simu_schema key = None ->
     validate simu_schema (Mapping (items1 ++ (key, value) :: items2))
     = validate simu_schema (Mapping (items1 ++ items2))) /\
  (forall items sub key,
     ("obs_params", Mapping sub) ∈ items ->
     key ∈ sub.*1 ->
     find_field obs_schema key = None ->
     exists e, validate simu_schema (Mapping items) = Raise e) /\
  (forall items sub key,
     ("perf_params", Mapping sub) ∈ items ->
     key ∈ sub.*1 ->
     find_field perf_schema key = None ->
     exists e, validate simu_schema (Mapping items) = Raise e).
Proof.
  split; [|split].
  - intros items1 key value items2 Hkey.
    by apply validate_ignores_extra_key.
  - intros items sub key Hsec Hin Hkey.
    destruct (validate_rejects_extra_key obs_schema sub key) as [e He];
      [done..|].
    eapply (validate_field_raises simu_schema items "obs_params");
      [exact Hsec|reflexivity|exact He].
  - intros items sub key Hsec Hin Hkey.
    destruct (validate_rejects_extra_key perf_schema sub key) as [e He];
      [done..|].
    eapply (validate_field_raises simu_schema items "perf_params");
      [exact Hsec|reflexivity|exact He].
Qed.

End SimuSchemaFacts.

(** C7 as stated fails both ways: with schemas that accept every value, a
    document with the unknown top-level key [bogus] validates (the key is
    dropped), and a document whose [obs_params] carries the extra key
    [bogus] is rejected. *)
Lemma simu_schema_flags_counterexample :
  let accept : node -> result node := Ok in
  let simu_schema :=
    SimuConfig_schema (fun _ => accept) accept accept accept accept accept
      accept accept in
  let known :=
    [ ("jobkey", Scalar "job"); ("instrument", Mapping []);
      ("mapping", Mapping []); ("obs_params", Mapping []) ] in
  find_field simu_schema "bogus" = None /\
  validate simu_schema (Mapping (known ++ [("bogus", Scalar "1")]))
    = Ok (Mapping known) /\
  validate simu_schema
    (Mapping [ ("jobkey", Scalar "job"); ("instrument", Mapping []);
               ("mapping", Mapping []);
               ("obs_params", Mapping [("bogus", Scalar "1")]) ])
    = Raise (SchemaWrongKeyError "bogus").
Proof. vm_compute. by repeat split. Qed.

Lemma simu_schema_extra_keys_witness :
  let accept : node -> result node := Ok in
  let simu_schema :=
    SimuConfig_schema (fun _ => accept) accept accept accept accept accept
      accept accept in
  validate simu_schema
    (Mapping ([("jobkey", Scalar "job")]
              ++ ("bogus", Scalar "1")
                 :: [ ("instrument", Mapping []); ("mapping", Mapping []);
                      ("obs_params", Mapping []) ]))
  = validate simu_schema
      (Mapping ([("jobkey", Scalar "job")]
                ++ [ ("instrument", Mapping []); ("mapping", Mapping []);
                     ("obs_params", Mapping []) ])) /\
  (exists e,
     validate simu_schema
       (Mapping [ ("jobkey", Scalar "job");
                  ("obs_params", Mapping [("bogus", Scalar "1")]) ])
     = Raise e) /\
  (exists e,
     validate simu_schema
       (Mapping [ ("jobkey", Scalar "job");
                  ("perf_params", Mapping [("bogus", Scalar "1")]) ])
     = Raise e).
Proof.
  intros accept simu_schema.
  destruct (simu_schema_extra_keys (fun _ => accept) accept accept accept
              accept accept accept accept) as (Htop & Hobs & Hperf).
  split; [|split].
  - apply Htop. reflexivity.
  - apply (Hobs _ [("bogus", Scalar "1")] "bogus").
    + apply list_elem_of_In. simpl. auto.
    + apply list_elem_of_In. simpl. auto.
    + reflexivity.
  - apply (Hperf _ [("bogus", Scalar "1")] "bogus").
    + apply list_elem_of_In. simpl. auto.
    + apply list_elem_of_In. simpl. auto.
    + reflexivity.
Defined.

(** ** The file-name classifier *)

(** *** The pattern pieces on concatenations *)

Lemma app_cons c s t : String c s +:+ t = String c (s +:+ t).
Proof. reflexivity. Qed.

Lemma app_empty t : "" +:+ t = t.
Proof. reflexivity. Qed.

Lemma str_app_nil_r s : s +:+ "" = s.
Proof. induction s as [|c s IH]; [done|]. by rewrite app_cons, IH. Qed.

Lemma str_app_assoc s1 s2 s3 : (s1 +:+ s2) +:+ s3 = s1 +:+ s2 +:+ s3.
Proof. induction s1 as [|c s1 IH]; [done|]. by rewrite !app_cons, IH. Qed.

Lemma lit_app l s : lit l (l +:+ s) = Some s.
Proof.
  induction l as [|c l IH]; [done|].
  rewrite app_cons. simpl. by rewrite Ascii.eqb_refl.
Qed.

Lemma span_app p a s :
  all_chars p a = true -> stops p s -> span p (a +:+ s) = (a, s).
Proof.
  intros Ha Hs. induction a as [|c a IH].
  - rewrite app_empty. destruct s as [|c s]; [done|].
    simpl in *. by rewrite Hs.
  - simpl in Ha. apply andb_true_iff in Ha as [Hc Ha].
    rewrite app_cons. simpl. by rewrite Hc, IH.
Qed.

Lemma many1_app p a s :
  nonempty_of p a -> stops p s -> many1 p (a +:+ s) = Some (a, s).
Proof.
  intros [Hne Ha] Hs. unfold many1. rewrite span_app by done.
  by destruct a.
Qed.

Lemma many1_all p a : nonempty_of p a -> many1 p a = Some (a, "").
Proof.
  intros Ha. rewrite <- (str_app_nil_r a) at 1.
  by apply many1_app.
Qed.

Lemma digits_app n a s :
  digits_of_len n a -> digits n (a +:+ s) = Some (a, s).
Proof.
  intros [Hlen Ha]. revert a Hlen Ha.
  induction n as [|n IH]; intros [|c a] Hlen Ha; try done.
  simpl in Hlen, Ha. apply andb_true_iff in Ha as [Hc Ha].
  rewrite app_cons. simpl. rewrite Hc, (IH a) by (done || lia). done.
Qed.

Lemma digits_all n a : digits_of_len n a -> digits n a = Some (a, "").
Proof.
  intros Ha. rewrite <- (str_app_nil_r a) at 1.
  by apply digits_app.
Qed.

Lemma bind_Some {A B} (x : A) (f : A -> option B) : Some x ≫= f = f x.
Proof. reflexivity. Qed.

(** One piece of a pattern has matched: go on with the rest. *)
Ltac matched lem :=
  rewrite lem by done; rewrite bind_Some; cbv beta iota.

Lemma ut_toltec_app ut s :
  ut_toltec_shape ut -> ut_toltec (ut +:+ s) = Some (ut, s).
Proof.
  intros (y & m & d & hh & mm & ss & Hy & Hm & Hd & Hhh & Hmm & Hss & ->).
  unfold ut_toltec.
  rewrite !str_app_assoc.
  matched (digits_app 4 y). matched (lit_app "_").
  matched (digits_app 2 m). matched (lit_app "_").
  matched (digits_app 2 d). matched (lit_app "_").
  matched (digits_app 2 hh). matched (lit_app "_").
  matched (digits_app 2 mm). matched (lit_app "_").
  matched (digits_app 2 ss).
  done.
Qed.

Lemma opt_kind_app kind s :
  (forall k, kind = Some k -> nonempty_of is_kind_char k) ->
  opt_kind (kind_part kind +:+ "." +:+ s) = (kind, "." +:+ s).
Proof.
  intros Hkind. destruct kind as [k|]; simpl.
  - unfold opt_kind. rewrite str_app_assoc, (lit_app "_").
    rewrite many1_app; [done|by apply Hkind|done].
  - done.
Qed.

Lemma ext_to_end_app e eol :
  nonempty_of is_dot_char e ->
  eol = "" \/ eol = String "010"%char "" ->
  ext_to_end (e +:+ eol) = Some e.
Proof.
  intros He Heol. unfold ext_to_end.
  rewrite many1_app; [|done|by destruct Heol as [-> | ->]].
  simpl. by rewrite decide_True.
Qed.

(** Every file name of the grammar is matched by the pattern, with the
    groups of the grammar. *)
Lemma re_toltec_file_complete filename g :
  toltec_grammar filename g -> re_toltec_file filename = Some g.
Proof.
  intros (Hnwid & Hobsid & Hsubobsid & Hscanid & Hut & Hkind & Hext
          & eol & Heol & ->).
  unfold re_toltec_file.
  matched (lit_app "toltec").
  matched (many1_app is_digit (g_nwid g)). matched (lit_app "_").
  matched (many1_app is_digit (g_obsid g)). matched (lit_app "_").
  matched (many1_app is_digit (g_subobsid g)). matched (lit_app "_").
  matched (many1_app is_digit (g_scanid g)). matched (lit_app "_").
  matched ut_toltec_app.
  rewrite opt_kind_app by done. cbv beta iota.
  matched (lit_app ".").
  matched ext_to_end_app.
  by destruct g.
Qed.

(** *** Conversion and post-processing *)

Lemma py_int_digits s :
  nonempty_of is_digit s -> py_int s = Ok (int_of_digits 0 s).
Proof.
  intros Hs. unfold py_int. rewrite many1_all by done. done.
Qed.

Section ConvertToltec.

Variable g : toltec_groups.
Hypothesis Hnwid : nonempty_of is_digit (g_nwid g).
Hypothesis Hobsid : nonempty_of is_digit (g_obsid g).
Hypothesis Hsubobsid : nonempty_of is_digit (g_subobsid g).
Hypothesis Hscanid : nonempty_of is_digit (g_scanid g).

Let step :=
  fun (acc : result info_dict) (kv : string * pyval) =>
    bind acc (fun info =>
    bind (default (Ok : converter) (dispatch_toltec !! kv.1) kv.2) (fun v =>
    Ok (<[kv.1 := v]> info))).

Lemma step_plain info k v items :
  dispatch_toltec !! k = None ->
  fold_left step ((k, v) :: items) (Ok info)
  = fold_left step items (Ok (<[k := v]> info)).
Proof.
  intros Hk. cbn [fold_left]. unfold step at 2.
  cbn [bind fst snd]. rewrite Hk. reflexivity.
Qed.

Lemma step_int info k s items :
  dispatch_toltec !! k = Some conv_int ->
  nonempty_of is_digit s ->
  fold_left step ((k, VStr s) :: items) (Ok info)
  = fold_left step items (Ok (<[k := VInt (int_of_digits 0 s)]> info)).
Proof.
  intros Hk Hs. cbn [fold_left]. unfold step at 2.
  cbn [bind fst snd]. rewrite Hk.
  cbn [from_option]. unfold Datatypes.id. cbn [conv_int].
  rewrite py_int_digits by done. reflexivity.
Qed.

Lemma step_raised e items : fold_left step items (Raise e) = Raise e.
Proof.
  induction items as [|kv items IH]; [done|].
  cbn [fold_left]. exact IH.
Qed.

Lemma step_ut info items :
  fold_left step (("ut", VStr (g_ut g)) :: items) (Ok info)
  = fold_left step items
      (bind (strptime_toltec (g_ut g)) (fun dt =>
       Ok (<["ut" := VDatetime dt]> info))).
Proof.
  cbn [fold_left]. unfold step at 2. cbn [bind fst snd].
  assert (dispatch_toltec !! "ut" = Some (conv_strptime strptime_toltec))
    as -> by reflexivity.
  cbn [from_option]. unfold Datatypes.id. cbn [conv_strptime].
  by destruct (strptime_toltec (g_ut g)).
Qed.

(** The comprehension over the groups of a TolTEC match raises exactly
    when the time stamp does not parse. *)
Lemma convert_groups_toltec :
  convert_groups dispatch_toltec (groupdict_toltec g)
  = bind (strptime_toltec (g_ut g)) (fun dt => Ok (toltec_info g dt)).
Proof using All.
  unfold convert_groups, groupdict_toltec. fold step.
  rewrite step_plain by reflexivity.
  rewrite step_plain by reflexivity.
  rewrite !step_int by (reflexivity || done).
  rewrite step_ut.
  destruct (strptime_toltec (g_ut g)) as [dt|e]; cbn [bind].
  - rewrite step_plain by reflexivity.
    rewrite step_plain by reflexivity.
    reflexivity.
  - apply step_raised.
Qed.

End ConvertToltec.

Lemma toltec_info_kindstr g dt :
  toltec_info g dt !! "kindstr" = Some (opt_str (g_kindstr g)).
Proof. unfold toltec_info. by simplify_map_eq. Qed.

Lemma toltec_info_fileext g dt :
  toltec_info g dt !! "fileext" = Some (VStr (g_fileext g)).
Proof. unfold toltec_info. by simplify_map_eq. Qed.

(** [post_toltec] on the dictionary of a match: the key [kindstr] is
    always there, so the default is never written; the kind is replaced
    unless the extension is [nc] in some letter case. *)
Lemma post_toltec_info g dt :
  post_toltec (toltec_info g dt)
  = Ok (if decide (lower (g_fileext g) = "nc") then toltec_info g dt
        else <["kindstr" := VStr "ancillary"]> (toltec_info g dt)).
Proof.
  unfold post_toltec.
  rewrite toltec_info_kindstr, toltec_info_fileext.
  by destruct (decide _).
Qed.

(** What the classifier does on a file name of the grammar. *)
Lemma info_from_filename_toltec filename g :
  toltec_grammar filename g ->
  _info_from_filename filename
  = bind (strptime_toltec (g_ut g)) (fun dt =>
    Ok (Some (if decide (lower (g_fileext g) = "nc") then toltec_info g dt
              else <["kindstr" := VStr "ancillary"]> (toltec_info g dt)))).
Proof.
  intros Hg.
  pose proof (re_toltec_file_complete _ _ Hg) as Hmatch.
  destruct Hg as (Hnwid & Hobsid & Hsubobsid & Hscanid & _).
  unfold _info_from_filename, file_patterns, first_match.
  cbn [fp_match fp_dispatch fp_post].
  rewrite Hmatch. cbn [fmap option_fmap option_map].
  rewrite convert_groups_toltec by done.
  destruct (strptime_toltec (g_ut g)) as [dt|e]; [|done].
  cbn [bind]. by rewrite post_toltec_info.
Qed.

(** *** What the classifier returns *)

(** A file name of the grammar whose time stamp is no calendar date and
    time is not classified: [strptime] raises. *)
Lemma info_from_filename_bad_time filename g e :
  toltec_grammar filename g ->
  strptime_toltec (g_ut g) = Raise e ->
  _info_from_filename filename = Raise e.
Proof.
  intros Hg Hut. rewrite (info_from_filename_toltec _ _ Hg), Hut. done.
Qed.

(** The integer fields of the record are the integers that the matched
    substrings denote, and the extension is kept. *)
Lemma info_from_filename_fields filename g dt :
  toltec_grammar filename g ->
  strptime_toltec (g_ut g) = Ok dt ->
  exists info,
    _info_from_filename filename = Ok (Some info) /\
    info !! "nwid" = Some (VInt (int_of_digits 0 (g_nwid g))) /\
    info !! "obsid" = Some (VInt (int_of_digits 0 (g_obsid g))) /\
    info !! "subobsid" = Some (VInt (int_of_digits 0 (g_subobsid g))) /\
    info !! "scanid" = Some (VInt (int_of_digits 0 (g_scanid g))) /\
    info !! "ut" = Some (VDatetime dt) /\
    info !! "fileext" = Some (VStr (g_fileext g)).
Proof.
  intros Hg Hut. rewrite (info_from_filename_toltec _ _ Hg), Hut.
  eexists. split; [reflexivity|].
  unfold toltec_info. destruct (decide _); by simplify_map_eq.
Qed.

(** With the kind left out and the extension [nc], the kind of the record
    is [None]: the default [timestream] is never written. *)
Lemma info_from_filename_kind_absent_nc filename g dt :
  toltec_grammar filename g ->
  strptime_toltec (g_ut g) = Ok dt ->
  g_kindstr g = None ->
  lower (g_fileext g) = "nc" ->
  exists info,
    _info_from_filename filename = Ok (Some info) /\
    info !! "kindstr" = Some VNone.
Proof.
  intros Hg Hut Hkind Hext. rewrite (info_from_filename_toltec _ _ Hg), Hut.
  eexists. split; [reflexivity|].
  rewrite decide_True by done. by rewrite toltec_info_kindstr, Hkind.
Qed.

(** C3 at [toltec0_1_2_3_2020_01_01_00_00_00.nc]: the integer fields are
    the parsed substrings, and the kind, which the file name leaves out,
    is [None], not [timestream]. *)
Theorem info_from_filename_nc_without_kind :
  exists info,
    _info_from_filename "toltec0_1_2_3_2020_01_01_00_00_00.nc"
      = Ok (Some info) /\
    info !! "nwid" = Some (VInt 0) /\
    info !! "obsid" = Some (VInt 1) /\
    info !! "subobsid" = Some (VInt 2) /\
    info !! "scanid" = Some (VInt 3) /\
    info !! "fileext" = Some (VStr "nc") /\
    info !! "kindstr" = Some VNone /\
    info !! "kindstr" <> Some (VStr "timestream").
Proof.
  set (g := ToltecGroups "0" "1" "2" "3" "2020_01_01_00_00_00" None "nc").
  assert (toltec_grammar "toltec0_1_2_3_2020_01_01_00_00_00.nc" g) as Hg.
  { unfold toltec_grammar, nonempty_of. simpl.
    split; [done|]. split; [done|]. split; [done|]. split; [done|].
    split.
    { exists "2020", "01", "01", "00", "00", "00".
      unfold digits_of_len. simpl. done. }
    split; [done|]. split; [done|].
    exists "". split; [by left|reflexivity]. }
  exists (toltec_info g (Datetime 2020 1 1 0 0 0)).
  split; [by rewrite (info_from_filename_toltec _ _ Hg)|].
  unfold toltec_info, g. simpl.
  split; [by simplify_map_eq|]. split; [by simplify_map_eq|].
  split; [by simplify_map_eq|]. split; [by simplify_map_eq|].
  split; [by simplify_map_eq|]. split; [by simplify_map_eq|].
  by simplify_map_eq.
Qed.

(** C9: a file name of the grammar (with a time stamp that is a calendar
    date and time) whose extension is not [nc] in any letter case is
    classified with kind [ancillary], whatever kind the name spells out:
    a kind in the name is replaced. *)
Theorem info_from_filename_non_nc_is_ancillary filename g dt :
  toltec_grammar filename g ->
  strptime_toltec (g_ut g) = Ok dt ->
  lower (g_fileext g) <> "nc" ->
  exists info,
    _info_from_filename filename = Ok (Some info) /\
    info !! "kindstr" = Some (VStr "ancillary") /\
    (forall k, g_kindstr g = Some k -> k <> "ancillary" ->
               info !! "kindstr" <> Some (VStr k)).
Proof.
  intros Hg Hut Hext. rewrite (info_from_filename_toltec _ _ Hg), Hut.
  eexists. split; [reflexivity|].
  rewrite decide_False by done.
  split; [by simplify_map_eq|].
  intros k _ Hk. simplify_map_eq. intros [= Heq]. by apply Hk.
Qed.

Lemma info_from_filename_non_nc_is_ancillary_witness :
  let filename := "toltec12_001_2_3_2020_01_01_00_00_00_foo_bar.txt.gz" in
  exists info,
    _info_from_filename filename = Ok (Some info) /\
    info !! "kindstr" = Some (VStr "ancillary") /\
    info !! "kindstr" <> Some (VStr "foo_bar").
Proof.
  intros filename.
  set (g := ToltecGroups "12" "001" "2" "3" "2020_01_01_00_00_00"
              (Some "foo_bar") "txt.gz").
  assert (toltec_grammar filename g) as Hg.
  { unfold toltec_grammar, nonempty_of. simpl.
    split; [done|]. split; [done|]. split; [done|]. split; [done|].
    split.
    { exists "2020", "01", "01", "00", "00", "00".
      unfold digits_of_len. simpl. done. }
    split; [by intros k [= <-]|].
    split; [done|].
    exists "". split; [by left|reflexivity]. }
  assert (strptime_toltec (g_ut g) = Ok (Datetime 2020 1 1 0 0 0)) as Hut
    by reflexivity.
  assert (lower (g_fileext g) <> "nc") as Hext by (simpl; discriminate).
  destruct (info_from_filename_non_nc_is_ancillary filename g _ Hg Hut Hext)
    as (info & Hinfo & Hkind & Hreplaced).
  exists info. split; [exact Hinfo|]. split; [exact Hkind|].
  apply Hreplaced; [reflexivity|discriminate].
Defined.

(** C9 as stated fails where the time stamp is no calendar date: the name
    [toltec0_1_2_3_2021_02_30_00_00_00_foo.txt] is of the grammar, with
    the kind [foo] and an extension that is not [nc], and for its 30th of
    February [strptime] raises [ValueError]: no record is returned. *)
Lemma info_from_filename_non_nc_raises :
  let filename := "toltec0_1_2_3_2021_02_30_00_00_00_foo.txt" in
  exists g,
    toltec_grammar filename g /\
    g_kindstr g = Some "foo" /\
    lower (g_fileext g) <> "nc" /\
    _info_from_filename filename = Raise ValueError /\
    forall info, _info_from_filename filename <> Ok (Some info).
Proof.
  intros filename.
  set (g := ToltecGroups "0" "1" "2" "3" "2021_02_30_00_00_00"
              (Some "foo") "txt").
  assert (toltec_grammar filename g) as Hg.
  { unfold toltec_grammar, nonempty_of. simpl.
    split; [done|]. split; [done|]. split; [done|]. split; [done|].
    split.
    { exists "2021", "02", "30", "00", "00", "00".
      unfold digits_of_len. simpl. done. }
    split; [by intros k [= <-]|].
    split; [done|].
    exists "". split; [by left|reflexivity]. }
  assert (_info_from_filename filename = Raise ValueError) as Hraise.
  { apply (info_from_filename_bad_time _ g); [done|]. reflexivity. }
  exists g. split; [done|]. split; [done|].
  split; [simpl; discriminate|]. split; [done|].
  intros info. rewrite Hraise. discriminate.
Qed.

(** ** The obs-planner coverage map *)

Section ImageFacts.

Local Open Scope R_scope.

Lemma fold_left_Rmax_ge xs x : x <= fold_left Rmax xs x.
Proof.
  revert x. induction xs as [|y xs IH]; intros x; simpl; [lra|].
  eapply Rle_trans; [apply (Rmax_l x y)|apply IH].
Qed.

Lemma fold_left_Rmax_upper xs x c :
  In c (x :: xs) -> c <= fold_left Rmax xs x.
Proof.
  revert x. induction xs as [|y xs IH]; intros x Hc.
  - destruct Hc as [->|[]]. simpl. lra.
  - simpl. destruct Hc as [->|[->|Hc]].
    + eapply Rle_trans; [apply (Rmax_l c y)|apply fold_left_Rmax_ge].
    + eapply Rle_trans; [apply (Rmax_r x c)|apply fold_left_Rmax_ge].
    + apply IH. by right.
Qed.

Lemma pixel_In_concat (im : image) i j c :
  pixel im i j = Some c -> In c (concat im).
Proof.
  unfold pixel. intros Hpx.
  destruct ((im : list (list R)) !! i) as [row|] eqn:Hrow; [|done].
  simpl in Hpx. apply in_concat. exists row.
  split; apply list_elem_of_In; eapply list_elem_of_lookup_2; eauto.
Qed.

(** [image_max] is the peak of the image. *)
Lemma image_max_upper (im : image) cov_max i j c :
  image_max im = Ok cov_max -> pixel im i j = Some c -> c <= cov_max.
Proof.
  unfold image_max. intros Hmax Hpx.
  apply pixel_In_concat in Hpx.
  destruct (concat im) as [|x xs]; [done|].
  injection Hmax as <-. by apply fold_left_Rmax_upper.
Qed.

(** Writing through the mask [cov > v] is a pixel-wise function of the
    coverage. *)
Lemma mask_row (F G : R -> R) v (row : list R) :
  zip_with (fun (b : bool) c => if b then F c else 0)
    ((fun c => if Rlt_dec v c then true else false) <$> row) (G <$> row)
  = (fun c => if Rlt_dec v c then F (G c) else 0) <$> row.
Proof.
  induction row as [|c row IH]; [done|].
  rewrite !fmap_cons. cbn [zip_with]. rewrite IH.
  by destruct (Rlt_dec v c).
Qed.

Lemma mask_image (F G : R -> R) v (cov : image) :
  zip_with (zip_with (fun (b : bool) c => if b then F c else 0))
    (image_gt cov v) ((fun row : list R => G <$> row) <$> (cov : list (list R)))
  = (fun row : list R =>
       (fun c => if Rlt_dec v c then F (G c) else 0) <$> row)
    <$> (cov : list (list R)).
Proof.
  unfold image_gt. induction cov as [|row cov IH]; [done|].
  rewrite !fmap_cons. cbn [zip_with]. by rewrite IH, mask_row.
Qed.

Lemma image_fmap_id (cov : image) :
  (fun row : list R => (fun c : R => c) <$> row) <$> (cov : list (list R))
  = cov.
Proof.
  induction cov as [|row cov IH]; [done|].
  rewrite fmap_cons, IH. f_equal. apply list_fmap_id.
Qed.

Lemma assign_where_gt f v (cov : image) :
  assign_where f (image_gt cov v) cov
  = (fun row : list R => (fun c => if Rlt_dec v c then f c else 0) <$> row)
    <$> (cov : list (list R)).
Proof.
  unfold assign_where.
  rewrite <- (image_fmap_id cov) at 2.
  apply (mask_image f (fun c => c)).
Qed.

Lemma pixel_fmap (h : R -> R) (cov : image) i j :
  pixel ((fun row : list R => h <$> row) <$> (cov : list (list R))) i j
  = h <$> pixel cov i j.
Proof.
  unfold pixel. rewrite list_lookup_fmap.
  destruct ((cov : list (list R)) !! i) as [row|]; simpl; [|done].
  by rewrite list_lookup_fmap.
Qed.

End ImageFacts.

Section CoverageFacts.

Local Open Scope R_scope.

(** C4: on a coverage map with peak [cov_max] the depth conversion
    returns; a pixel whose coverage [c] exceeds 2% of [cov_max] gets
    [sqrt 2 * nefd / sqrt (c * beam_area_px)], with [beam_area_px] the
    Gaussian beam area [2 * pi * a_stddev * b_stddev] over the pixel area,
    and every other pixel is zero.  No coverage exceeds [cov_max]. *)
Theorem depth_conversion_pixelwise
    (a_fwhm b_fwhm cov_pixarea nefd : R) (cov_data : image) (cov_max : R) :
  image_max cov_data = Ok cov_max ->
  exists depth,
    cov_data_mJy_per_beam a_fwhm b_fwhm cov_pixarea nefd cov_data
      = Ok depth /\
    forall i j c,
      pixel cov_data i j = Some c ->
      c <= cov_max /\
      (0.02 * cov_max < c ->
         pixel depth i j
         = Some (sqrt 2 * nefd
                 / sqrt (c * (2 * PI * (a_fwhm / GAUSSIAN_SIGMA_TO_FWHM)
                                * (b_fwhm / GAUSSIAN_SIGMA_TO_FWHM)
                              / cov_pixarea)))) /\
      (c <= 0.02 * cov_max -> pixel depth i j = Some 0).
Proof.
  intros Hmax. unfold cov_data_mJy_per_beam. rewrite Hmax. simpl.
  eexists. split; [reflexivity|].
  intros i j c Hpx. split; [by eapply image_max_upper|].
  rewrite assign_where_gt, pixel_fmap, Hpx. simpl.
  split; intros Hc; destruct (Rlt_dec (0.02 * cov_max) c); (done || lra).
Qed.

Lemma depth_conversion_pixelwise_witness :
  image_max [[4; 0]] = Ok (Rmax 4 0) /\
  exists depth,
    cov_data_mJy_per_beam 1 1 1 1 [[4; 0]] = Ok depth /\
    forall i j c,
      pixel [[4; 0]] i j = Some c ->
      c <= Rmax 4 0 /\
      (0.02 * Rmax 4 0 < c ->
         pixel depth i j
         = Some (sqrt 2 * 1
                 / sqrt (c * (2 * PI * (1 / GAUSSIAN_SIGMA_TO_FWHM)
                                * (1 / GAUSSIAN_SIGMA_TO_FWHM) / 1)))) /\
      (c <= 0.02 * Rmax 4 0 -> pixel depth i j = Some 0).
Proof.
  assert (image_max [[4; 0]] = Ok (Rmax 4 0)) as Hmax by reflexivity.
  split; [exact Hmax|].
  exact (depth_conversion_pixelwise 1 1 1 1 [[4; 0]] (Rmax 4 0) Hmax).
Defined.

(** The contour that the [for ... else] picks: the first one with more
    than two points, or, when none has, the last one. *)
Lemma select_contour_spec (cxy : list contour) (c : contour) :
  select_contour cxy = Ok c ->
  (exists before after,
     cxy = before ++ c :: after /\ (2 < length c)%nat /\
     Forall (fun c' : contour => (length c' <= 2)%nat) before) \/
  (Forall (fun c' : contour => (length c' <= 2)%nat) cxy /\
   last cxy = Some c).
Proof.
  unfold select_contour.
  destruct (find _ cxy) as [c'|] eqn:Hfind.
  - intros [= ->]. left.
    induction cxy as [|c0 cxy IH]; [done|].
    simpl in Hfind. destruct (Nat.ltb_spec 2 (length c0)) as [Hlt|Hge].
    + injection Hfind as ->. by exists [], cxy.
    + destruct (IH Hfind) as (before & after & -> & Hc & Hbefore).
      exists (c0 :: before), after. repeat split; [done|].
      by constructor.
  - destruct (last cxy) as [c'|] eqn:Hlast; [|done].
    intros [= ->]. right. split; [|done].
    apply List.Forall_forall. intros c' Hin.
    pose proof (find_none _ _ Hfind c' Hin) as Hc'. simpl in Hc'.
    by apply Nat.ltb_ge in Hc'.
Qed.

Variable findContours : image -> list contour.
Variable arcLength : contour -> bool -> R.
Variable approxPolyDP : contour -> R -> bool -> contour.

(** C8, with the threshold and the choice of contour that the code makes:
    before the contour search every pixel whose coverage is at or below 2%
    of the peak is set to zero and every other pixel keeps its value (in
    the configured unit); the contour taken is the first one with more
    than two points (the last one when none has), and it is simplified
    with tolerance 0.002 times its closed perimeter. *)
Theorem outline_threshold_and_contour
    (kind : coverage_map_type) (a_fwhm b_fwhm cov_pixarea nefd : R)
    (cov_data : image) (cov_max : R) :
  image_max cov_data = Ok cov_max ->
  exists im,
    cov_ctr kind a_fwhm b_fwhm cov_pixarea nefd cov_data = Ok im /\
    (forall i j c,
       pixel cov_data i j = Some c ->
       (c <= 0.02 * cov_max -> pixel im i j = Some 0) /\
       (0.02 * cov_max < c ->
          pixel im i j
          = Some (match kind with
                  | CovTime => c
                  | CovDepth =>
                      sens_coeff * nefd
                      / sqrt (c * beam_area_pix2 a_fwhm b_fwhm cov_pixarea)
                  end))) /\
    outline findContours arcLength approxPolyDP kind a_fwhm b_fwhm
        cov_pixarea nefd cov_data
    = bind (select_contour (findContours im)) (fun cxy =>
      Ok (approxPolyDP cxy (0.002 * arcLength cxy true) true)) /\
    (forall c,
       select_contour (findContours im) = Ok c ->
       (exists before after,
          findContours im = before ++ c :: after /\ (2 < length c)%nat /\
          Forall (fun c' : contour => (length c' <= 2)%nat) before) \/
       (Forall (fun c' : contour => (length c' <= 2)%nat)
          (findContours im) /\
        last (findContours im) = Some c)).
Proof.
  intros Hmax.
  assert (exists G : R -> R,
            (match kind with
             | CovDepth =>
                 cov_data_mJy_per_beam a_fwhm b_fwhm cov_pixarea nefd
                   cov_data
             | CovTime => Ok cov_data
             end
             = Ok ((fun row : list R => G <$> row)
                   <$> (cov_data : list (list R)))) /\
            forall c, 0.02 * cov_max < c ->
              G c = match kind with
                    | CovTime => c
                    | CovDepth =>
                        sens_coeff * nefd
                        / sqrt (c * beam_area_pix2 a_fwhm b_fwhm
                                      cov_pixarea)
                    end) as (G & Hdata & HG).
  { destruct kind.
    - eexists. split.
      + unfold cov_data_mJy_per_beam. rewrite Hmax. simpl.
        by rewrite assign_where_gt.
      + intros c Hc. simpl. by destruct (Rlt_dec (0.02 * cov_max) c).
    - exists (fun c => c). split; [|done].
      by rewrite image_fmap_id. }
  eexists. split.
  { unfold cov_ctr. rewrite Hmax. simpl. rewrite Hdata. simpl.
    unfold zero_outside. rewrite (mask_image (fun c => c) G). reflexivity. }
  split; [|split].
  - intros i j c Hpx. rewrite pixel_fmap, Hpx. simpl.
    split; intros Hc; destruct (Rlt_dec (0.02 * cov_max) c);
      try lra; try done.
    by rewrite HG.
  - unfold outline, cov_ctr. rewrite Hmax. simpl. rewrite Hdata. simpl.
    unfold zero_outside. by rewrite (mask_image (fun c => c) G).
  - intros c. apply select_contour_spec.
Qed.

End CoverageFacts.

Lemma outline_threshold_and_contour_witness :
  let findContours : image -> list contour :=
    fun _ => [[(0, 0); (1, 0)]; [(0, 0); (1, 0); (1, 1)]]%Z in
  let arcLength : contour -> bool -> R := fun _ _ => 1%R in
  let approxPolyDP : contour -> R -> bool -> contour := fun c _ _ => c in
  image_max [[4; 0]]%R = Ok (Rmax 4 0) /\
  exists im,
    cov_ctr CovTime 1 1 1 1 [[4; 0]]%R = Ok im /\
    outline findContours arcLength approxPolyDP CovTime 1 1 1 1 [[4; 0]]%R
    = bind (select_contour (findContours im)) (fun cxy =>
      Ok (approxPolyDP cxy (0.002 * arcLength cxy true)%R true)).
Proof.
  intros findContours arcLength approxPolyDP.
  assert (image_max [[4; 0]]%R = Ok (Rmax 4 0)) as Hmax by reflexivity.
  split; [exact Hmax|].
  destruct (outline_threshold_and_contour findContours arcLength
              approxPolyDP CovTime 1 1 1 1 [[4; 0]]%R (Rmax 4 0) Hmax)
    as (im & Him & _ & Houtline & _).
  exists im. split; [exact Him|exact Houtline].
Defined.

(** C8 as stated fails on the threshold and on the contour: a pixel at 5%
    of the peak, below the 10% of the claim, is kept, and of a three-point
    contour followed by a five-point one the first is taken, not the
    largest. *)
Lemma outline_threshold_counterexample :
  cov_ctr CovTime 1 1 1 1 [[100; 5]]%R = Ok [[100; 5]]%R /\
  (5 <= 0.1 * 100)%R /\
  pixel [[100; 5]]%R 0 1 = Some 5%R /\
  (5 <> 0)%R /\
  select_contour
    [ [(0, 0); (1, 0); (1, 1)];
      [(0, 0); (2, 0); (2, 2); (1, 3); (0, 2)] ]%Z
  = Ok [(0, 0); (1, 0); (1, 1)]%Z.
Proof.
  split; [|repeat split; try reflexivity; lra].
  unfold cov_ctr, image_max, image_gt, zero_outside. simpl.
  rewrite Rmax_left by lra.
  destruct (Rlt_dec (0.02 * 100) 100); [|lra].
  destruct (Rlt_dec (0.02 * 100) 5); [|lra].
  reflexivity.
Qed.

(** * Further properties *)

(** ** The time-chunk planner: sizes and edge cases *)

(** The split before the merge: full chunks, then one chunk with the
    rest. *)
Lemma split_chunks_shape (t : list Q) (k m' : nat) :
  (0 < k)%nat -> (m' * k < length t)%nat -> (length t <= S m' * k)%nat ->
  exists front last_chunk,
    split_chunks t (Z.of_nat k) (Z.of_nat (S m')) = front ++ [last_chunk] /\
    Forall (fun c : list Q => length c = k) front /\
    (1 <= length last_chunk)%nat /\ (length last_chunk <= k)%nat.
Proof.
  intros Hk Hlow Hup. rewrite split_chunks_nat, seq_S, map_app. simpl.
  eexists _, _. split; [reflexivity|]. split; [|split].
  - apply List.Forall_forall. intros c [i [<- Hi]]%in_map_iff.
    apply in_seq in Hi. rewrite length_take, length_drop. nia.
  - rewrite length_take, length_drop. nia.
  - rewrite length_take. lia.
Qed.

(** The merge step on such a split keeps the full chunks, and leaves a
    last chunk that is neither empty, nor as long as 1.1 full chunks, nor
    shorter than a tenth of the chunk before it. *)
Lemma merge_last_chunk_shape (k : nat) (front0 : list (list Q))
    (last0 : list Q) :
  Forall (fun c : list Q => length c = k) front0 ->
  (1 <= length last0)%nat -> (length last0 <= k)%nat ->
  exists front last_chunk,
    merge_last_chunk (Z.of_nat (length (front0 ++ [last0])))
      (front0 ++ [last0]) = front ++ [last_chunk] /\
    Forall (fun c : list Q => length c = k) front /\
    (1 <= length last_chunk)%nat /\
    (10 * length last_chunk < 11 * k)%nat /\
    (forall front' prev_chunk,
       front = front' ++ [prev_chunk] ->
       (length prev_chunk <= 10 * length last_chunk)%nat).
Proof.
  intros Hfront Hlast1 Hlastk. unfold merge_last_chunk.
  rewrite rev_app_distr. simpl.
  destruct front0 as [|c0 front0 _] using rev_ind.
  { simpl. exists [], last0. repeat split; try done; try lia.
    intros [|? ?] ? ?; discriminate. }
  apply Forall_app in Hfront as [Hfront Hprev].
  apply Forall_cons in Hprev as [Hprev _].
  rewrite rev_app_distr. simpl.
  destruct (Z.leb_spec 2 (Z.of_nat (length ((front0 ++ [c0]) ++ [last0]))))
    as [_|Hshort]; [|rewrite !length_app in Hshort; simpl in Hshort; lia].
  destruct (Z.ltb_spec (Z.of_nat (length last0) * 10)
              (Z.of_nat (length c0))) as [Hmerge|Hkeep].
  - rewrite rev_involutive. exists front0, (c0 ++ last0).
    rewrite length_app. repeat split; try done; try lia.
    intros front' prev_chunk ->.
    apply Forall_app in Hfront as [_ Hp].
    apply Forall_cons in Hp as [Hp _]. lia.
  - exists (front0 ++ [c0]), last0. repeat split; try done; try lia.
    + apply Forall_app. split; [done|]. by apply Forall_cons.
    + intros front' prev_chunk Heq.
      apply app_inj_tail in Heq as [_ <-]. lia.
Qed.

(** What [_make_time_chunks] returns on a timeline with samples. *)
Lemma make_time_chunks_shape (t_exp f_smp chunk_len : Q)
    (t_chunks : list (list Q)) :
  (0 < t_exp)%Q -> (0 < f_smp)%Q -> (1 <= chunk_len * f_smp)%Q ->
  _make_time_chunks t_exp f_smp chunk_len = Ok t_chunks ->
  exists front last_chunk,
    t_chunks = front ++ [last_chunk] /\
    Forall (fun c : list Q =>
              Z.of_nat (length c) = n_times_per_chunk_of f_smp chunk_len)
      front /\
    (1 <= length last_chunk)%nat /\
    (10 * Z.of_nat (length last_chunk)
     < 11 * n_times_per_chunk_of f_smp chunk_len)%Z /\
    (forall front' prev_chunk,
       front = front' ++ [prev_chunk] ->
       (length prev_chunk <= 10 * length last_chunk)%nat).
Proof.
  intros Ht Hf Hprod.
  pose proof (n_times_per_chunk_pos _ _ Hprod) as Hk.
  set (k := n_times_per_chunk_of f_smp chunk_len) in *.
  set (t := time_grid t_exp f_smp).
  assert (0 < length t)%nat as Hn.
  { unfold t. rewrite length_time_grid by done.
    assert (0 < Qceiling (t_exp * f_smp)%Q)%Z; [|lia].
    apply Qceiling_pos. rewrite <- (Qmult_0_l f_smp).
    by apply Qmult_lt_compat_r. }
  destruct (count_chunks_pos (Z.of_nat (length t)) k)
    as (m & Hm & Hcover & Htight & Hm0); [lia..|].
  unfold _make_time_chunks. fold t k. rewrite Hm. simpl.
  intros [= <-].
  assert (1 <= m)%Z as Hm1 by nia.
  destruct (split_chunks_shape t (Z.to_nat k) (Z.to_nat m - 1))
    as (front0 & last0 & Hsplit & Hfront0 & Hlast1 & Hlastk); [nia..|].
  replace (S (Z.to_nat m - 1)) with (Z.to_nat m) in Hsplit by lia.
  rewrite !Z2Nat.id in Hsplit by lia.
  destruct (merge_last_chunk_shape (Z.to_nat k) front0 last0)
    as (front & last_chunk & Hmerge & Hfront & Hl1 & Hl2 & Htail); [done..|].
  assert (Z.of_nat (length (front0 ++ [last0])) = m) as Hlen.
  { rewrite <- Hsplit, length_split_chunks. lia. }
  rewrite Hlen, <- Hsplit in Hmerge.
  exists front, last_chunk. split; [done|]. split; [|split; [done|split]].
  - eapply Forall_impl; [exact Hfront|]. simpl. intros c Hc. lia.
  - lia.
  - done.
Qed.

(** On a timeline with samples, every chunk but the last has exactly
    [n_times_per_chunk] samples, and the last one has at least one sample
    and fewer than 1.1 times [n_times_per_chunk]: the merge step bounds the
    memory of a chunk. *)
Theorem make_time_chunks_chunk_sizes (t_exp f_smp chunk_len : Q)
    (t_chunks : list (list Q)) :
  (0 < t_exp)%Q -> (0 < f_smp)%Q -> (1 <= chunk_len * f_smp)%Q ->
  _make_time_chunks t_exp f_smp chunk_len = Ok t_chunks ->
  exists front last_chunk,
    t_chunks = front ++ [last_chunk] /\
    Forall (fun c : list Q =>
              Z.of_nat (length c) = n_times_per_chunk_of f_smp chunk_len)
      front /\
    (1 <= length last_chunk)%nat /\
    (10 * Z.of_nat (length last_chunk)
     < 11 * n_times_per_chunk_of f_smp chunk_len)%Z.
Proof.
  intros Ht Hf Hprod Hret.
  destruct (make_time_chunks_shape _ _ _ _ Ht Hf Hprod Hret)
    as (front & last_chunk & Heq & Hfront & Hl1 & Hl2 & _).
  by exists front, last_chunk.
Qed.

Lemma make_time_chunks_chunk_sizes_witness :
  exists front last_chunk,
    @eq (list (list Q))
      [ map (fun i : nat => (inject_Z (Z.of_nat i) * (1 / 1))%Q) (seq 0 12) ]
      (front ++ [last_chunk]) /\
    Forall (fun c : list Q =>
              Z.of_nat (length c) = n_times_per_chunk_of 1 11) front /\
    (1 <= length last_chunk)%nat /\
    (10 * Z.of_nat (length last_chunk) < 11 * n_times_per_chunk_of 1 11)%Z.
Proof.
  assert (0 < 12)%Q as Ht by reflexivity.
  assert (0 < 1)%Q as Hf by reflexivity.
  assert (1 <= 11 * 1)%Q as Hprod by (vm_compute; congruence).
  assert (_make_time_chunks 12 1 11
          = Ok [ map (fun i : nat => (inject_Z (Z.of_nat i) * (1 / 1))%Q)
                   (seq 0 12) ]) as Hret by (vm_compute; reflexivity).
  exact (make_time_chunks_chunk_sizes 12 1 11 _ Ht Hf Hprod Hret).
Defined.

(** The returned list never ends with a chunk shorter than a tenth of the
    chunk before it. *)
Theorem make_time_chunks_tail_not_tiny (t_exp f_smp chunk_len : Q)
    (front : list (list Q)) (prev_chunk last_chunk : list Q) :
  (0 < t_exp)%Q -> (0 < f_smp)%Q -> (1 <= chunk_len * f_smp)%Q ->
  _make_time_chunks t_exp f_smp chunk_len
    = Ok (front ++ [prev_chunk; last_chunk]) ->
  (length prev_chunk <= 10 * length last_chunk)%nat.
Proof.
  intros Ht Hf Hprod Hret.
  destruct (make_time_chunks_shape _ _ _ _ Ht Hf Hprod Hret)
    as (front_s & last_s & Heq & _ & _ & _ & Htail).
  change (front ++ [prev_chunk; last_chunk])
    with (front ++ [prev_chunk] ++ [last_chunk]) in Heq.
  rewrite app_assoc in Heq.
  apply app_inj_tail in Heq as [<- <-].
  by apply (Htail front prev_chunk).
Qed.

Lemma make_time_chunks_tail_not_tiny_witness :
  (length (map (fun i : nat => (inject_Z (Z.of_nat i) * (1 / 1))%Q)
             (seq 0 10))
   <= 10 * length [(inject_Z 10 * (1 / 1))%Q])%nat.
Proof.
  assert (0 < 11)%Q as Ht by reflexivity.
  assert (0 < 1)%Q as Hf by reflexivity.
  assert (1 <= 10 * 1)%Q as Hprod by (vm_compute; congruence).
  assert (_make_time_chunks 11 1 10
          = Ok ([] ++ [ map (fun i : nat =>
                               (inject_Z (Z.of_nat i) * (1 / 1))%Q)
                          (seq 0 10);
                        [(inject_Z 10 * (1 / 1))%Q] ])) as Hret
    by (vm_compute; reflexivity).
  exact (make_time_chunks_tail_not_tiny 11 1 10 [] _ _ Ht Hf Hprod Hret).
Defined.

(** No returned chunk is empty, whatever the exposure time. *)
Theorem make_time_chunks_no_empty_chunk (t_exp f_smp chunk_len : Q)
    (t_chunks : list (list Q)) :
  (0 < f_smp)%Q -> (1 <= chunk_len * f_smp)%Q ->
  _make_time_chunks t_exp f_smp chunk_len = Ok t_chunks ->
  Forall (fun c : list Q => c <> []) t_chunks.
Proof.
  intros Hf Hprod.
  pose proof (n_times_per_chunk_pos _ _ Hprod) as Hk.
  unfold _make_time_chunks.
  destruct (count_chunks_pos
              (Z.of_nat (length (time_grid t_exp f_smp)))
              (n_times_per_chunk_of f_smp chunk_len))
    as (m & Hm & Hcover & Htight & Hm0); [lia..|].
  rewrite Hm. simpl. intros [= <-].
  apply merge_last_chunk_nonempty, split_chunks_nonempty; lia.
Qed.

Lemma make_time_chunks_no_empty_chunk_witness :
  Forall (fun c : list Q => c <> [])
    [ map (fun i : nat => (inject_Z (Z.of_nat i) * (1 / 1))%Q) (seq 0 12) ].
Proof.
  assert (0 < 1)%Q as Hf by reflexivity.
  assert (1 <= 11 * 1)%Q as Hprod by (vm_compute; congruence).
  assert (_make_time_chunks 12 1 11
          = Ok [ map (fun i : nat => (inject_Z (Z.of_nat i) * (1 / 1))%Q)
                   (seq 0 12) ]) as Hret by (vm_compute; reflexivity).
  exact (make_time_chunks_no_empty_chunk 12 1 11 _ Hf Hprod Hret).
Defined.

(** Without exposure time there is no sample and no chunk: for
    [t_exp <= 0] the planner returns the empty list, provided the chunk
    length is at least one sample (or at most minus one). *)
Theorem make_time_chunks_no_exposure (t_exp f_smp chunk_len : Q) :
  (t_exp <= 0)%Q -> (0 < f_smp)%Q ->
  n_times_per_chunk_of f_smp chunk_len <> 0%Z ->
  _make_time_chunks t_exp f_smp chunk_len = Ok [].
Proof.
  intros Ht Hf Hk.
  assert (length (time_grid t_exp f_smp) = 0%nat) as Hlen.
  { rewrite length_time_grid by done.
    assert (Qceiling (t_exp * f_smp)%Q <= 0)%Z; [|lia].
    assert (t_exp * f_smp <= 0)%Q as Hle.
    { rewrite <- (Qmult_0_l f_smp). apply Qmult_le_compat_r; [done|].
      by apply Qlt_le_weak. }
    pose proof (Qceiling_lt (t_exp * f_smp)%Q) as Hc.
    assert (inject_Z (Qceiling (t_exp * f_smp)%Q - 1) < 0)%Q as Hlt
      by (eapply Qlt_le_trans; eauto).
    unfold Qlt in Hlt. simpl in Hlt. lia. }
  unfold _make_time_chunks, count_chunks. rewrite Hlen.
  destruct (Z.eqb_spec (n_times_per_chunk_of f_smp chunk_len) 0); [done|].
  simpl. by rewrite Z.div_0_l, Z.mod_0_l by done.
Qed.

Lemma make_time_chunks_no_exposure_witness :
  _make_time_chunks 0 120 10 = Ok [].
Proof.
  apply make_time_chunks_no_exposure; vm_compute; congruence.
Defined.

Lemma int_of_float_le_m1 (x : Q) : (x <= -1)%Q -> (int_of_float x <= -1)%Z.
Proof.
  unfold Qle, int_of_float. simpl. intros Hx.
  replace (-1)%Z with (Z.quot (- Z.pos (Qden x)) (Z.pos (Qden x))).
  - apply Z.quot_le_mono; lia.
  - rewrite Z.quot_opp_l, Z.quot_same by lia. done.
Qed.

(** A negative chunk length is no error: when [chunk_len * f_smp <= -1]
    the planner returns no chunk at all, so the samples of the exposure
    are silently dropped. *)
Theorem make_time_chunks_negative_chunk_len (t_exp f_smp chunk_len : Q) :
  (0 < f_smp)%Q -> (chunk_len * f_smp <= -1)%Q ->
  _make_time_chunks t_exp f_smp chunk_len = Ok [].
Proof.
  intros Hf Hprod.
  pose proof (int_of_float_le_m1 _ Hprod) as Hk.
  unfold _make_time_chunks, count_chunks. fold (n_times_per_chunk_of f_smp chunk_len) in Hk.
  set (k := n_times_per_chunk_of f_smp chunk_len) in *.
  set (n := Z.of_nat (length (time_grid t_exp f_smp))).
  destruct (Z.eqb_spec k 0); [lia|]. simpl.
  assert (n / k + bool_of_int (n mod k) <= 0)%Z as Hm.
  { pose proof (Z.div_mod n k ltac:(lia)) as Hdm.
    pose proof (Z.mod_neg_bound n k ltac:(lia)) as Hmod.
    assert (0 <= n)%Z by (unfold n; lia).
    unfold bool_of_int. destruct (Z.eqb_spec (n mod k) 0); nia. }
  unfold merge_last_chunk, split_chunks.
  destruct (Z.leb_spec 2 (n / k + bool_of_int (n mod k))); [lia|].
  replace (Z.to_nat (n / k + bool_of_int (n mod k))) with 0%nat by lia.
  done.
Qed.

Lemma make_time_chunks_negative_chunk_len_witness :
  _make_time_chunks 100 120 (-10) = Ok [].
Proof.
  apply make_time_chunks_negative_chunk_len; vm_compute; congruence.
Defined.

(** ** The run: what is written, and when *)

Lemma make_time_chunks_raises (t_exp f_smp chunk_len : Q) :
  (0 < chunk_len * f_smp)%Q -> (chunk_len * f_smp < 1)%Q ->
  _make_time_chunks t_exp f_smp chunk_len = Raise ZeroDivisionError.
Proof.
  intros Hpos Hlt.
  assert (n_times_per_chunk_of f_smp chunk_len = 0%Z) as Hk
    by (by apply int_of_float_small).
  unfold _make_time_chunks, count_chunks. by rewrite Hk.
Qed.

(** A chunk length shorter than one sample ends the run before anything is
    written: [run] raises the planner's [ZeroDivisionError]. *)
Theorem run_raises_on_short_chunk {TOD : Type}
    (tod_evaluator :
       MappingModel -> SimuConfig -> list Q -> list Q -> result TOD)
    (cfg : SimuConfig) (m_mapping : MappingModel) :
  plot_only cfg = false ->
  (0 < chunk_len (perf_params cfg) * f_smp_probing (obs_params cfg))%Q ->
  (chunk_len (perf_params cfg) * f_smp_probing (obs_params cfg) < 1)%Q ->
  run tod_evaluator cfg m_mapping = ([], Raise ZeroDivisionError).
Proof.
  intros Hplot Hpos Hlt. unfold run, run_time_plan.
  rewrite Hplot, make_time_chunks_raises by done. done.
Qed.

Lemma run_raises_on_short_chunk_witness :
  run (fun _ _ _ t => Ok (length t))
    {| jobkey := "job"; obs_params := ObsParamsConfig_default;
       perf_params :=
         {| chunk_len := 1 # 1000;
            catalog_model_render_pixel_size := 1 # 2;
            mapping_eval_interp_len := None;
            mapping_erfa_interp_len := 300;
            atm_eval_interp_alt_step := 240;
            pre_run_setup_time_grid_size := 100;
            anim_frame_rate := 300 |};
       plot_only := false |}
    {| t_pattern := 60 |}
  = ([], Raise ZeroDivisionError).
Proof.
  apply run_raises_on_short_chunk; vm_compute; congruence.
Defined.

(** Without a failure, [run] writes one evaluation per chunk of the plan,
    in the order of the chunks. *)
Theorem run_writes_every_chunk {TOD : Type}
    (tod_evaluator :
       MappingModel -> SimuConfig -> list Q -> list Q -> result TOD)
    (cfg : SimuConfig) (m_mapping : MappingModel)
    (written : list TOD) (plan : time_plan) :
  run tod_evaluator cfg m_mapping = (written, Ok (OutputDir plan)) ->
  run_time_plan cfg m_mapping = Ok plan /\
  Forall2
    (fun t d =>
       tod_evaluator m_mapping cfg (plan_pre_run_setup_time_grid plan) t
       = Ok d)
    (plan_t_chunks plan) written.
Proof.
  unfold run. destruct (plot_only cfg); [discriminate|].
  destruct (run_time_plan cfg m_mapping) as [plan'|e]; [|discriminate].
  pose proof (write_chunks_prefix
                (tod_evaluator m_mapping cfg
                   (plan_pre_run_setup_time_grid plan'))
                (plan_t_chunks plan') []) as (outs & Hw & Hall & Hok & _).
  destruct (write_chunks _ _ _) as [written' status]. simpl in *.
  destruct status as [[]|e]; simpl; [|discriminate].
  intros [= <- <-]. split; [done|].
  subst written'. rewrite (Hok eq_refl) in Hall.
  by rewrite firstn_all in Hall.
Qed.

Lemma run_writes_every_chunk_witness :
  let cfg :=
    {| jobkey := "job";
       obs_params :=
         {| t_exp := Some 3%Q; f_smp_mapping := 12; f_smp_probing := 1 |};
       perf_params :=
         {| chunk_len := 2;
            catalog_model_render_pixel_size := 1 # 2;
            mapping_eval_interp_len := None;
            mapping_erfa_interp_len := 300;
            atm_eval_interp_alt_step := 240;
            pre_run_setup_time_grid_size := 2;
            anim_frame_rate := 300 |};
       plot_only := false |} in
  let plan := TimePlan 3 [[0; 1]; [2]]%Q [0; 3]%Q in
  run (fun _ _ _ t => Ok (length t)) cfg {| t_pattern := 60 |}
    = ([2%nat; 1%nat], Ok (OutputDir plan)) /\
  Forall2 (fun (t : list Q) (d : nat) => Ok (length t) = Ok d)
    (plan_t_chunks plan) [2%nat; 1%nat].
Proof.
  intros cfg plan.
  assert (run (fun _ _ _ t => Ok (length t)) cfg {| t_pattern := 60 |}
          = ([2%nat; 1%nat], Ok (OutputDir plan))) as Hrun
    by (vm_compute; reflexivity).
  split; [exact Hrun|].
  exact (proj2 (run_writes_every_chunk _ cfg _ _ _ Hrun)).
Defined.

(** ** The configuration schema: required keys *)

Lemma validate_missing_required (s : dataclass_schema)
    (items : list (string * node)) (f : dataclass_field) :
  f ∈ fields s -> field_required f = true ->
  field_name f ∉ items.*1 ->
  exists e, validate s (Mapping items) = Raise e.
Proof.
  intros Hf Hreq Hmissing. unfold validate.
  destruct (validate_items s items) as [new|e]; simpl; [|by eexists].
  destruct (missing_keys s items) as [|k ks] eqn:Hm; [|by eexists].
  exfalso. unfold missing_keys in Hm.
  eapply (filter_nil_not_elem_of _ _ (field_name f) Hm); [done|].
  apply list_elem_of_fmap. exists f. split; [done|].
  by apply list_elem_of_filter.
Qed.

(** The fields of the [simu] configuration without a default ([jobkey],
    [instrument], [mapping], [obs_params]) are required: a document that
    lacks one of them is rejected, whatever the field schemas accept. *)
Theorem simu_schema_required_keys
    (PhysicalTypeSchema : string -> node -> result node)
    (instrument_schema mapping_schema : node -> result node)
    (sources_schema plots_schema exports_schema : node -> result node)
    (str_schema bool_schema : node -> result node)
    (items : list (string * node)) (key : string) :
  key ∈ ["jobkey"; "instrument"; "mapping"; "obs_params"] ->
  key ∉ items.*1 ->
  exists e,
    validate
      (SimuConfig_schema PhysicalTypeSchema instrument_schema
         mapping_schema sources_schema plots_schema exports_schema
         str_schema bool_schema)
      (Mapping items) = Raise e.
Proof.
  intros Hkey Hmissing.
  set (s := SimuConfig_schema _ _ _ _ _ _ _ _).
  assert (exists f, f ∈ fields s /\ field_required f = true /\
                    field_name f = key) as (f & Hf & Hreq & <-).
  { apply list_elem_of_In in Hkey. simpl in Hkey.
    destruct Hkey as [<-|[<-|[<-|[<-|[]]]]];
      [ exists (Field "jobkey" true str_schema)
      | exists (Field "instrument" true instrument_schema)
      | exists (Field "mapping" true mapping_schema)
      | exists (Field "obs_params" true
                  (validate (ObsParamsConfig_schema PhysicalTypeSchema))) ];
      (split; [|split; reflexivity]);
      apply list_elem_of_In; simpl; auto 10. }
  by eapply validate_missing_required.
Qed.

Lemma simu_schema_required_keys_witness :
  exists e,
    validate
      (SimuConfig_schema (fun _ => Ok) Ok Ok Ok Ok Ok Ok Ok)
      (Mapping [ ("jobkey", Scalar "job"); ("instrument", Mapping []);
                 ("mapping", Mapping []) ])
    = Raise e.
Proof.
  apply (simu_schema_required_keys _ _ _ _ _ _ _ _ _ "obs_params").
  - apply list_elem_of_In. simpl. auto.
  - intros Hin. apply list_elem_of_In in Hin. simpl in Hin.
    destruct Hin as [Hin|[Hin|[Hin|[]]]]; discriminate.
Defined.

(** ** The file-name patterns: what they accept *)

Lemma lit_inv l s r : lit l s = Some r -> s = l +:+ r.
Proof.
  revert s. induction l as [|a l IH]; intros s Hs.
  - simpl in Hs. by injection Hs as ->.
  - destruct s as [|b s]; [done|]. simpl in Hs.
    destruct (Ascii.eqb_spec a b) as [->|]; [|done].
    rewrite app_cons. f_equal. by apply IH.
Qed.

Lemma span_inv p s a b :
  span p s = (a, b) -> s = a +:+ b /\ all_chars p a = true /\ stops p b.
Proof.
  revert a b. induction s as [|c s IH]; intros a b Hs.
  - simpl in Hs. by injection Hs as <- <-.
  - simpl in Hs. destruct (p c) eqn:Hc.
    + destruct (span p s) as [a' b'] eqn:Hspan.
      injection Hs as <- <-.
      destruct (IH a' b' eq_refl) as (-> & Ha & Hb).
      rewrite app_cons. simpl. by rewrite Hc, Ha.
    + injection Hs as <- <-. by rewrite app_empty.
Qed.

Lemma many1_inv p s a b :
  many1 p s = Some (a, b) ->
  s = a +:+ b /\ nonempty_of p a /\ stops p b.
Proof.
  unfold many1. destruct (span p s) as [a' b'] eqn:Hspan.
  destruct a' as [|c a']; [done|]. intros [= <- <-].
  destruct (span_inv _ _ _ _ Hspan) as (-> & Ha & Hb).
  by repeat split.
Qed.

Lemma digits_inv n s a b :
  digits n s = Some (a, b) -> s = a +:+ b /\ digits_of_len n a.
Proof.
  revert s a b. induction n as [|n IH]; intros s a b Hs.
  - simpl in Hs. by injection Hs as <- <-.
  - simpl in Hs. destruct s as [|c s]; [done|].
    destruct (is_digit c) eqn:Hc; [|done].
    destruct (digits n s) as [[a' b']|] eqn:Hd; [|done].
    rewrite bind_Some in Hs. injection Hs as <- <-.
    destruct (IH _ _ _ Hd) as (-> & Hlen & Ha).
    rewrite app_cons. split; [done|]. split; simpl; [by rewrite Hlen|].
    by rewrite Hc, Ha.
Qed.

(** One piece of a pattern, read backwards. *)
Tactic Notation "piece" hyp(H) ident(a) ident(b) ident(E) :=
  match type of H with
  | (?m ≫= _) = _ =>
      destruct m as [[a b]|] eqn:E;
      [rewrite bind_Some in H; cbv beta iota in H|discriminate H]
  end.

Tactic Notation "literal" hyp(H) ident(r) ident(E) :=
  match type of H with
  | (?m ≫= _) = _ =>
      destruct m as [r|] eqn:E;
      [rewrite bind_Some in H; apply lit_inv in E; subst|discriminate H]
  end.

Lemma ut_toltec_inv s ut r :
  ut_toltec s = Some (ut, r) -> s = ut +:+ r /\ ut_toltec_shape ut.
Proof.
  unfold ut_toltec. intros H.
  piece H y s1 Ey. apply digits_inv in Ey as (-> & Hy).
  literal H s2 E1.
  piece H m s3 Em. apply digits_inv in Em as (-> & Hm).
  literal H s4 E2.
  piece H d s5 Ed. apply digits_inv in Ed as (-> & Hd).
  literal H s6 E3.
  piece H hh s7 Ehh. apply digits_inv in Ehh as (-> & Hhh).
  literal H s8 E4.
  piece H mm s9 Emm. apply digits_inv in Emm as (-> & Hmm).
  literal H s10 E5.
  piece H ss s11 Ess. apply digits_inv in Ess as (-> & Hss).
  injection H as <- <-. split.
  - by rewrite !str_app_assoc.
  - by exists y, m, d, hh, mm, ss.
Qed.

Lemma opt_kind_inv s kind r :
  opt_kind s = (kind, r) ->
  s = kind_part kind +:+ r /\
  (forall k, kind = Some k -> nonempty_of is_kind_char k).
Proof.
  unfold opt_kind.
  destruct (lit "_" s) as [s'|] eqn:Hlit.
  - destruct (many1 is_kind_char s') as [[k s'']|] eqn:Hk.
    + intros [= <- <-]. apply lit_inv in Hlit as ->.
      apply many1_inv in Hk as (-> & Hk & _).
      split; [simpl; by rewrite str_app_assoc|]. by intros ? [= <-].
    + by intros [= <- <-].
  - by intros [= <- <-].
Qed.

Lemma ext_to_end_inv s e :
  ext_to_end s = Some e ->
  nonempty_of is_dot_char e /\
  exists eol, (eol = "" \/ eol = String "010"%char "") /\ s = e +:+ eol.
Proof.
  unfold ext_to_end. intros H.
  piece H e' s' Ee. apply many1_inv in Ee as (-> & He & _).
  destruct (decide _) as [Heol|]; [|done].
  injection H as <-. split; [done|]. by exists s'.
Qed.

(** What the pattern matches is a name of the grammar. *)
Lemma re_toltec_file_sound filename g :
  re_toltec_file filename = Some g -> toltec_grammar filename g.
Proof.
  unfold re_toltec_file. intros H.
  literal H s0 E0.
  piece H nwid s1 En. apply many1_inv in En as (-> & Hnwid & _).
  literal H s2 E1.
  piece H obsid s3 Eo. apply many1_inv in Eo as (-> & Hobsid & _).
  literal H s4 E2.
  piece H subobsid s5 Es. apply many1_inv in Es as (-> & Hsubobsid & _).
  literal H s6 E3.
  piece H scanid s7 Ec. apply many1_inv in Ec as (-> & Hscanid & _).
  literal H s8 E4.
  piece H ut s9 Eu. apply ut_toltec_inv in Eu as (-> & Hut).
  destruct (opt_kind s9) as [kind s10] eqn:Ek.
  apply opt_kind_inv in Ek as (-> & Hkind).
  literal H s11 E5.
  destruct (ext_to_end s11) as [fileext|] eqn:Ee; [|discriminate H].
  rewrite bind_Some in H. injection H as <-.
  apply ext_to_end_inv in Ee as (Hext & eol & Heol & ->).
  unfold toltec_grammar. simpl.
  repeat (split; [done|]). exists eol. split; [done|].
  by rewrite ?str_app_assoc.
Qed.

(** The TolTEC pattern matches exactly the names of the grammar
    [toltec{N}_{obsid}_{subobsid}_{scanid}_{UT}[_{kind}].{ext}], and the
    groups of a name are determined by the name. *)
Theorem re_toltec_file_matches_grammar (filename : string)
    (g : toltec_groups) :
  re_toltec_file filename = Some g <-> toltec_grammar filename g.
Proof.
  split; [apply re_toltec_file_sound|apply re_toltec_file_complete].
Qed.

(** No file name is matched by both patterns, so their order in the list
    decides nothing. *)
Theorem file_patterns_disjoint (filename : string) :
  re_toltec_file filename = None \/ re_wyatt_file filename = None.
Proof.
  destruct (lit "toltec" filename) as [s|] eqn:Hlit.
  - right. apply lit_inv in Hlit as ->. reflexivity.
  - left. unfold re_toltec_file. by rewrite Hlit.
Qed.

Lemma lower_char_n c :
  lower_char c = "n"%char -> c = "n"%char \/ c = "N"%char.
Proof.
  destruct c as [[] [] [] [] [] [] [] []]; vm_compute; intros H;
    solve [discriminate H | by left | by right].
Qed.

Lemma lower_char_c c :
  lower_char c = "c"%char -> c = "c"%char \/ c = "C"%char.
Proof.
  destruct c as [[] [] [] [] [] [] [] []]; vm_compute; intros H;
    solve [discriminate H | by left | by right].
Qed.

(** The extensions that count as [nc] are its four spellings in upper and
    lower case. *)
Lemma lower_nc_iff e : lower e = "nc" <-> e ∈ nc_spellings.
Proof.
  split.
  - destruct e as [|c1 [|c2 [|c3 e]]]; try done.
    simpl. intros [= H1 H2].
    apply lower_char_n in H1 as [-> | ->];
      apply lower_char_c in H2 as [-> | ->];
      apply list_elem_of_In; simpl; auto.
  - intros He. apply list_elem_of_In in He. simpl in He.
    destruct He as [<-|[<-|[<-|[<-|[]]]]]; reflexivity.
Qed.

(** A kind spelled out in the name is kept exactly when the extension is
    [nc] in some letter case; with any other extension it is replaced by
    [ancillary]. *)
Theorem info_from_filename_keeps_kind_of_nc filename g dt k :
  toltec_grammar filename g ->
  strptime_toltec (g_ut g) = Ok dt ->
  g_kindstr g = Some k ->
  exists info,
    _info_from_filename filename = Ok (Some info) /\
    info !! "kindstr"
    = Some (VStr (if decide (g_fileext g ∈ nc_spellings) then k
                  else "ancillary")).
Proof.
  intros Hg Hut Hkind. rewrite (info_from_filename_toltec _ _ Hg), Hut.
  eexists. split; [reflexivity|].
  destruct (decide (lower (g_fileext g) = "nc")) as [Hnc|Hnc].
  - rewrite decide_True by (by apply lower_nc_iff).
    by rewrite toltec_info_kindstr, Hkind.
  - rewrite decide_False by (by rewrite <- lower_nc_iff).
    by simplify_map_eq.
Qed.

Lemma info_from_filename_keeps_kind_of_nc_witness :
  exists info,
    _info_from_filename "toltec3_10_0_1_2021_06_30_23_59_59_targsweep.NC"
      = Ok (Some info) /\
    info !! "kindstr" = Some (VStr "targsweep").
Proof.
  set (g := ToltecGroups "3" "10" "0" "1" "2021_06_30_23_59_59"
              (Some "targsweep") "NC").
  assert (toltec_grammar
            "toltec3_10_0_1_2021_06_30_23_59_59_targsweep.NC" g) as Hg.
  { unfold toltec_grammar, nonempty_of. simpl.
    split; [done|]. split; [done|]. split; [done|]. split; [done|].
    split.
    { exists "2021", "06", "30", "23", "59", "59".
      unfold digits_of_len. simpl. done. }
    split; [by intros k [= <-]|].
    split; [done|].
    exists "". split; [by left|reflexivity]. }
  assert (strptime_toltec (g_ut g) = Ok (Datetime 2021 6 30 23 59 59))
    as Hut by reflexivity.
  assert (g_kindstr g = Some "targsweep") as Hkind by reflexivity.
  destruct (info_from_filename_keeps_kind_of_nc _ g _ _ Hg Hut Hkind)
    as (info & Hinfo & Hk).
  exists info. split; [exact Hinfo|].
  rewrite Hk. reflexivity.
Defined.

Lemma strptime_toltec_raises v e :
  strptime_toltec v = Raise e -> e = ValueError.
Proof.
  unfold strptime_toltec, datetime_new.
  destruct (_ ≫= _) as [[[[[[y m] d] hh] mm] ss]|]; [|by intros [= <-]].
  destruct (_ && _); [done|by intros [= <-]].
Qed.

(** A name of the grammar whose time stamp is no calendar date and time
    (a month 13, a 30th of February, an hour 24) is not reported as
    unclassified: the classifier raises [ValueError]. *)
Theorem info_from_filename_invalid_time filename g :
  toltec_grammar filename g ->
  (forall dt, strptime_toltec (g_ut g) <> Ok dt) ->
  _info_from_filename filename = Raise ValueError.
Proof.
  intros Hg Hbad. rewrite (info_from_filename_toltec _ _ Hg).
  destruct (strptime_toltec (g_ut g)) as [dt|e] eqn:Hut.
  - by destruct (Hbad dt).
  - by rewrite (strptime_toltec_raises _ _ Hut).
Qed.

Lemma info_from_filename_invalid_time_witness :
  _info_from_filename "toltec0_1_2_3_2021_02_30_00_00_00.nc"
  = Raise ValueError.
Proof.
  set (g := ToltecGroups "0" "1" "2" "3" "2021_02_30_00_00_00" None "nc").
  assert (toltec_grammar "toltec0_1_2_3_2021_02_30_00_00_00.nc" g) as Hg.
  { unfold toltec_grammar, nonempty_of. simpl.
    split; [done|]. split; [done|]. split; [done|]. split; [done|].
    split.
    { exists "2021", "02", "30", "00", "00", "00".
      unfold digits_of_len. simpl. done. }
    split; [done|]. split; [done|].
    exists "". split; [by left|reflexivity]. }
  assert (forall dt, strptime_toltec (g_ut g) <> Ok dt) as Hbad
    by (intros dt; vm_compute; discriminate).
  exact (info_from_filename_invalid_time _ g Hg Hbad).
Defined.

(** ** The wyatt pattern *)

Ltac show_toltec_grammar y m d hh mm ss :=
  unfold toltec_grammar, nonempty_of; simpl;
  split; [done|]; split; [done|]; split; [done|]; split; [done|];
  split; [exists y, m, d, hh, mm, ss; unfold digits_of_len; simpl; done|];
  split; [first [done | by intros ? [= <-]]|]; split; [done|];
  exists ""; split; [by left|reflexivity].

Lemma info_from_filename_fields_witness :
  exists info,
    _info_from_filename "toltec12_001_2_3_2020_01_01_00_00_00_foo_bar.txt.gz"
      = Ok (Some info) /\
    info !! "nwid" = Some (VInt 12) /\
    info !! "obsid" = Some (VInt 1) /\
    info !! "subobsid" = Some (VInt 2) /\
    info !! "scanid" = Some (VInt 3) /\
    info !! "ut" = Some (VDatetime (Datetime 2020 1 1 0 0 0)) /\
    info !! "fileext" = Some (VStr "txt.gz").
Proof.
  set (g := ToltecGroups "12" "001" "2" "3" "2020_01_01_00_00_00"
              (Some "foo_bar") "txt.gz").
  assert (toltec_grammar
            "toltec12_001_2_3_2020_01_01_00_00_00_foo_bar.txt.gz" g) as Hg
    by show_toltec_grammar "2020" "01" "01" "00" "00" "00".
  assert (strptime_toltec (g_ut g) = Ok (Datetime 2020 1 1 0 0 0)) as Hut
    by reflexivity.
  exact (info_from_filename_fields _ g _ Hg Hut).
Defined.

Lemma info_from_filename_kind_absent_nc_witness :
  exists info,
    _info_from_filename "toltec0_1_2_3_2020_01_01_00_00_00.NC"
      = Ok (Some info) /\
    info !! "kindstr" = Some VNone.
Proof.
  set (g := ToltecGroups "0" "1" "2" "3" "2020_01_01_00_00_00" None "NC").
  assert (toltec_grammar "toltec0_1_2_3_2020_01_01_00_00_00.NC" g) as Hg
    by show_toltec_grammar "2020" "01" "01" "00" "00" "00".
  assert (strptime_toltec (g_ut g) = Ok (Datetime 2020 1 1 0 0 0)) as Hut
    by reflexivity.
  exact (info_from_filename_kind_absent_nc _ g _ Hg Hut eq_refl eq_refl).
Defined.

Lemma convert_groups_fold dispatch items :
  convert_groups dispatch items
  = fold_left (convert_step dispatch) items (Ok ∅).
Proof. reflexivity. Qed.

Section Convert.

Variable dispatch : gmap string converter.

Lemma convert_plain info k v items :
  dispatch !! k = None ->
  fold_left (convert_step dispatch) ((k, v) :: items) (Ok info)
  = fold_left (convert_step dispatch) items (Ok (<[k := v]> info)).
Proof.
  intros Hk. cbn [fold_left]. unfold convert_step at 2.
  cbn [bind fst snd]. rewrite Hk. reflexivity.
Qed.

Lemma convert_int info k s items :
  dispatch !! k = Some conv_int ->
  nonempty_of is_digit s ->
  fold_left (convert_step dispatch) ((k, VStr s) :: items) (Ok info)
  = fold_left (convert_step dispatch) items
      (Ok (<[k := VInt (int_of_digits 0 s)]> info)).
Proof.
  intros Hk Hs. cbn [fold_left]. unfold convert_step at 2.
  cbn [bind fst snd]. rewrite Hk.
  cbn [from_option]. unfold Datatypes.id. cbn [conv_int].
  rewrite py_int_digits by done. reflexivity.
Qed.

Lemma convert_raised e items :
  fold_left (convert_step dispatch) items (Raise e) = Raise e.
Proof.
  induction items as [|kv items IH]; [done|].
  cbn [fold_left]. exact IH.
Qed.

Lemma convert_strptime f info k s items :
  dispatch !! k = Some (conv_strptime f) ->
  fold_left (convert_step dispatch) ((k, VStr s) :: items) (Ok info)
  = fold_left (convert_step dispatch) items
      (bind (f s) (fun dt => Ok (<[k := VDatetime dt]> info))).
Proof.
  intros Hk. cbn [fold_left]. unfold convert_step at 2.
  cbn [bind fst snd]. rewrite Hk.
  cbn [from_option]. unfold Datatypes.id. cbn [conv_strptime].
  by destruct (f s).
Qed.

End Convert.

Lemma ut_wyatt_app ut s :
  ut_wyatt_shape ut -> ut_wyatt (ut +:+ s) = Some (ut, s).
Proof.
  intros (y & m & d & Hy & Hm & Hd & ->).
  unfold ut_wyatt. rewrite !str_app_assoc.
  matched (digits_app 4 y). matched (lit_app "-").
  matched (digits_app 2 m). matched (lit_app "-").
  matched (digits_app 2 d).
  done.
Qed.

Lemma kind_part_stops kind s : stops is_digit (kind_part kind +:+ "." +:+ s).
Proof. by destruct kind. Qed.

Lemma re_wyatt_file_complete filename g :
  wyatt_grammar filename g -> re_wyatt_file filename = Some g.
Proof.
  intros (Hut & Hobsid & Hsubobsid & Hscanid & Hkind & Hext
          & eol & Heol & ->).
  unfold re_wyatt_file.
  matched (lit_app "wyatt"). matched (lit_app "_").
  matched ut_wyatt_app. matched (lit_app "_").
  matched (many1_app is_digit (w_obsid g)). matched (lit_app "_").
  matched (many1_app is_digit (w_subobsid g)). matched (lit_app "_").
  rewrite (many1_app is_digit (w_scanid g))
    by (done || apply kind_part_stops).
  rewrite bind_Some. cbv beta iota.
  rewrite opt_kind_app by done. cbv beta iota.
  matched (lit_app ".").
  matched ext_to_end_app.
  by destruct g.
Qed.

Lemma convert_groups_wyatt g :
  nonempty_of is_digit (w_obsid g) ->
  nonempty_of is_digit (w_subobsid g) ->
  nonempty_of is_digit (w_scanid g) ->
  convert_groups dispatch_wyatt (groupdict_wyatt g)
  = bind (strptime_wyatt (w_ut g)) (fun dt => Ok (wyatt_info g dt)).
Proof.
  intros Hobsid Hsubobsid Hscanid.
  rewrite convert_groups_fold. unfold groupdict_wyatt.
  rewrite convert_plain by reflexivity.
  rewrite convert_plain by reflexivity.
  rewrite (convert_strptime _ strptime_wyatt) by reflexivity.
  destruct (strptime_wyatt (w_ut g)) as [dt|e]; cbn [bind].
  - rewrite !convert_int by (reflexivity || done).
    rewrite convert_plain by reflexivity.
    rewrite convert_plain by reflexivity.
    reflexivity.
  - apply convert_raised.
Qed.

(** A wyatt file name is classified with the kind that the name spells
    out, or [None] when it spells none: there is no default and no
    [ancillary] for wyatt, whatever the extension.  The interface is
    [wyatt] and the numbers are the integers of the matched digits. *)
Theorem info_from_filename_wyatt filename g dt :
  wyatt_grammar filename g ->
  strptime_wyatt (w_ut g) = Ok dt ->
  exists info,
    _info_from_filename filename = Ok (Some info) /\
    info !! "kindstr" = Some (opt_str (w_kindstr g)) /\
    info !! "interface" = Some (VStr "wyatt") /\
    info !! "obsid" = Some (VInt (int_of_digits 0 (w_obsid g))) /\
    info !! "subobsid" = Some (VInt (int_of_digits 0 (w_subobsid g))) /\
    info !! "scanid" = Some (VInt (int_of_digits 0 (w_scanid g))) /\
    info !! "ut" = Some (VDatetime dt) /\
    info !! "fileext" = Some (VStr (w_fileext g)).
Proof.
  intros Hg Hut.
  pose proof (re_wyatt_file_complete _ _ Hg) as Hmatch.
  assert (re_toltec_file filename = None) as Htoltec.
  { destruct Hg as (_ & _ & _ & _ & _ & _ & eol & _ & ->). reflexivity. }
  destruct Hg as (_ & Hobsid & Hsubobsid & Hscanid & _).
  exists (wyatt_info g dt). split.
  - unfold _info_from_filename, file_patterns, first_match.
    cbn [fp_match fp_dispatch fp_post].
    rewrite Htoltec, Hmatch. cbn [fmap option_fmap option_map].
    rewrite convert_groups_wyatt by done. rewrite Hut. reflexivity.
  - unfold wyatt_info. repeat split; by simplify_map_eq.
Qed.

Lemma info_from_filename_wyatt_witness :
  exists info,
    _info_from_filename "wyatt_2020-01-02_1_2_3_dump.txt" = Ok (Some info) /\
    info !! "kindstr" = Some (VStr "dump") /\
    info !! "obsid" = Some (VInt 1).
Proof.
  set (g := WyattGroups "2020-01-02" "1" "2" "3" (Some "dump") "txt").
  assert (wyatt_grammar "wyatt_2020-01-02_1_2_3_dump.txt" g) as Hg.
  { unfold wyatt_grammar, nonempty_of. simpl.
    split.
    { exists "2020", "01", "02". unfold digits_of_len. simpl. done. }
    split; [done|]. split; [done|]. split; [done|].
    split; [by intros k [= <-]|]. split; [done|].
    exists "". split; [by left|reflexivity]. }
  assert (strptime_wyatt (w_ut g) = Ok (Datetime 2020 1 2 0 0 0)) as Hut
    by reflexivity.
  destruct (info_from_filename_wyatt _ g _ Hg Hut)
    as (info & Hinfo & Hkind & _ & Hobsid & _).
  exists info. split; [exact Hinfo|]. split; [exact Hkind|exact Hobsid].
Defined.

(** ** The depth map and the outline: edge cases *)

Section DepthFacts.

Local Open Scope R_scope.

Variables a_fwhm b_fwhm cov_pixarea nefd : R.

(** Every pixel of the depth map, read off the coverage. *)
Lemma depth_pixel (cov_data depth : image) (cov_max : R) i j :
  image_max cov_data = Ok cov_max ->
  cov_data_mJy_per_beam a_fwhm b_fwhm cov_pixarea nefd cov_data = Ok depth ->
  pixel depth i j
  = (fun c => if Rlt_dec (0.02 * cov_max) c
              then sens_coeff * nefd
                   / sqrt (c * beam_area_pix2 a_fwhm b_fwhm cov_pixarea)
              else 0) <$> pixel cov_data i j.
Proof.
  intros Hmax. unfold cov_data_mJy_per_beam. rewrite Hmax. simpl.
  intros [= <-]. by rewrite assign_where_gt, pixel_fmap.
Qed.

(** The depth map has the shape of the coverage map: a pixel is there
    exactly when the coverage has one, and an image without any pixel has
    no peak, so that the conversion raises [ValueError]. *)
Theorem depth_map_shape (cov_data : image) :
  (concat cov_data = [] ->
   cov_data_mJy_per_beam a_fwhm b_fwhm cov_pixarea nefd cov_data
   = Raise ValueError) /\
  (forall depth,
     cov_data_mJy_per_beam a_fwhm b_fwhm cov_pixarea nefd cov_data
     = Ok depth ->
     length depth = length cov_data /\
     forall i j, is_Some (pixel depth i j) <-> is_Some (pixel cov_data i j)).
Proof.
  split.
  - intros Hempty. unfold cov_data_mJy_per_beam, image_max.
    by rewrite Hempty.
  - intros depth Hdepth.
    destruct (image_max cov_data) as [cov_max|e] eqn:Hmax;
      [|unfold cov_data_mJy_per_beam in Hdepth; by rewrite Hmax in Hdepth].
    split.
    + unfold cov_data_mJy_per_beam in Hdepth. rewrite Hmax in Hdepth.
      simpl in Hdepth. injection Hdepth as <-.
      by rewrite assign_where_gt, length_fmap.
    + intros i j. rewrite (depth_pixel _ _ _ _ _ Hmax Hdepth).
      by rewrite fmap_is_Some.
Qed.

(** Without exposure there is no depth: when the peak of the coverage is
    zero (or below), every pixel of the depth map is zero. *)
Theorem depth_of_no_exposure (cov_data depth : image) (cov_max : R) :
  image_max cov_data = Ok cov_max ->
  cov_max <= 0 ->
  cov_data_mJy_per_beam a_fwhm b_fwhm cov_pixarea nefd cov_data = Ok depth ->
  forall i j c, pixel depth i j = Some c -> c = 0.
Proof.
  intros Hmax Hpeak Hdepth i j c.
  rewrite (depth_pixel _ _ _ _ _ Hmax Hdepth).
  destruct (pixel cov_data i j) as [c0|] eqn:Hpx; [|done].
  simpl. pose proof (image_max_upper _ _ _ _ _ Hmax Hpx) as Hle.
  destruct (Rlt_dec (0.02 * cov_max) c0); [exfalso; lra|].
  by intros [= <-].
Qed.

End DepthFacts.

Lemma depth_of_no_exposure_witness :
  image_max [[0; 0]; [0; 0]]%R = Ok 0%R /\
  cov_data_mJy_per_beam 1 1 1 1 [[0; 0]; [0; 0]]%R
    = Ok [[0; 0]; [0; 0]]%R /\
  pixel [[0; 0]; [0; 0]]%R 1 1 = Some 0%R /\
  (0 = 0)%R.
Proof.
  assert (image_max [[0; 0]; [0; 0]]%R = Ok 0%R) as Hmax.
  { unfold image_max. simpl. by rewrite !(Rmax_left 0 0) by lra. }
  assert (0 <= 0)%R as Hpeak by lra.
  assert (cov_data_mJy_per_beam 1 1 1 1 [[0; 0]; [0; 0]]%R
          = Ok [[0; 0]; [0; 0]]%R) as Hdepth.
  { unfold cov_data_mJy_per_beam. rewrite Hmax. simpl.
    unfold assign_where, image_gt. simpl.
    destruct (Rlt_dec (0.02 * 0) 0); [exfalso; lra|]. reflexivity. }
  split; [exact Hmax|]. split; [exact Hdepth|]. split; [reflexivity|].
  exact (depth_of_no_exposure 1 1 1 1 _ _ _ Hmax Hpeak Hdepth 1%nat 1%nat
           0%R eq_refl).
Defined.

Lemma depth_map_shape_witness :
  cov_data_mJy_per_beam 1 1 1 1 [] = Raise ValueError.
Proof.
  exact (proj1 (depth_map_shape 1 1 1 1 []) eq_refl).
Defined.

Section DepthOrder.

Local Open Scope R_scope.

Lemma GAUSSIAN_SIGMA_TO_FWHM_pos : 0 < GAUSSIAN_SIGMA_TO_FWHM.
Proof.
  unfold GAUSSIAN_SIGMA_TO_FWHM.
  assert (0 < ln 2) as Hln.
  { rewrite <- ln_1. apply ln_increasing; lra. }
  assert (0 < sqrt (2 * ln 2)) by (apply sqrt_lt_R0; lra).
  lra.
Qed.

Lemma beam_area_pix2_pos a_fwhm b_fwhm cov_pixarea :
  0 < a_fwhm -> 0 < b_fwhm -> 0 < cov_pixarea ->
  0 < beam_area_pix2 a_fwhm b_fwhm cov_pixarea.
Proof.
  intros Ha Hb Hp. unfold beam_area_pix2.
  pose proof GAUSSIAN_SIGMA_TO_FWHM_pos as HG.
  pose proof PI_RGT_0 as Hpi.
  assert (0 < a_fwhm / GAUSSIAN_SIGMA_TO_FWHM) as Hsa
    by (by apply Rdiv_lt_0_compat).
  assert (0 < b_fwhm / GAUSSIAN_SIGMA_TO_FWHM) as Hsb
    by (by apply Rdiv_lt_0_compat).
  assert (0 < 2 * PI) as H2pi by lra.
  apply Rdiv_lt_0_compat; [|done].
  apply Rmult_lt_0_compat; [|done].
  by apply Rmult_lt_0_compat.
Qed.

Lemma In_concat_pixel (im : image) c :
  In c (concat im) -> exists i j, pixel im i j = Some c.
Proof.
  intros (row & Hrow & Hc)%in_concat.
  apply list_elem_of_In, list_elem_of_lookup_1 in Hrow as [i Hi].
  apply list_elem_of_In, list_elem_of_lookup_1 in Hc as [j Hj].
  exists i, j. unfold pixel. by rewrite Hi.
Qed.

Lemma fold_left_Rmax_const xs c :
  (forall y, In y xs -> y = c) -> fold_left Rmax xs c = c.
Proof.
  induction xs as [|y xs IH]; intros Hall; [done|].
  simpl. rewrite (Hall y) by (by left).
  rewrite Rmax_left by lra. apply IH. intros z Hz. apply Hall. by right.
Qed.

Variables a_fwhm b_fwhm cov_pixarea nefd : R.
Hypothesis Ha : 0 < a_fwhm.
Hypothesis Hb : 0 < b_fwhm.
Hypothesis Hpix : 0 < cov_pixarea.
Hypothesis Hnefd : 0 < nefd.

(** More exposure gives a deeper map: of two pixels above the threshold,
    the one with the larger coverage has the strictly smaller (and still
    positive) noise level. *)
Theorem depth_decreases_with_coverage (cov_data depth : image)
    (cov_max : R) (i1 j1 i2 j2 : nat) (c1 c2 : R) :
  image_max cov_data = Ok cov_max ->
  cov_data_mJy_per_beam a_fwhm b_fwhm cov_pixarea nefd cov_data = Ok depth ->
  pixel cov_data i1 j1 = Some c1 ->
  pixel cov_data i2 j2 = Some c2 ->
  0.02 * cov_max < c1 -> c1 < c2 ->
  exists d1 d2,
    pixel depth i1 j1 = Some d1 /\ pixel depth i2 j2 = Some d2 /\
    0 < d2 /\ d2 < d1.
Proof using All.
  intros Hmax Hdepth Hpx1 Hpx2 Hthr Hlt.
  pose proof (image_max_upper _ _ _ _ _ Hmax Hpx2) as Hle2.
  assert (0 < c1) as Hc1 by lra.
  pose proof (beam_area_pix2_pos _ _ _ Ha Hb Hpix) as HB.
  set (B := beam_area_pix2 a_fwhm b_fwhm cov_pixarea) in *.
  rewrite !(depth_pixel _ _ _ _ _ _ _ _ _ Hmax Hdepth), Hpx1, Hpx2.
  simpl. fold B.
  destruct (Rlt_dec (0.02 * cov_max) c1); [|lra].
  destruct (Rlt_dec (0.02 * cov_max) c2); [|lra].
  eexists _, _. split; [reflexivity|]. split; [reflexivity|].
  assert (0 < sens_coeff * nefd) as HK.
  { apply Rmult_lt_0_compat; [|done]. apply sqrt_lt_R0. lra. }
  assert (0 < c1 * B) as H1 by (by apply Rmult_lt_0_compat).
  assert (c1 * B < c2 * B) as H12 by (by apply Rmult_lt_compat_r).
  assert (0 < sqrt (c1 * B)) as Hs1 by (by apply sqrt_lt_R0).
  assert (sqrt (c1 * B) < sqrt (c2 * B)) as Hs12
    by (apply sqrt_lt_1_alt; lra).
  split.
  - apply Rdiv_lt_0_compat; lra.
  - unfold Rdiv. apply Rmult_lt_compat_l; [done|].
    apply Rinv_lt_contravar; [|done].
    apply Rmult_lt_0_compat; lra.
Qed.

(** On a uniform map with coverage [c > 0] every pixel of the depth map is
    [sqrt 2 * nefd / sqrt (c * beam_area_px)]. *)
Theorem depth_of_uniform_coverage (cov_data : image) (c : R) :
  concat cov_data <> [] ->
  (forall i j c', pixel cov_data i j = Some c' -> c' = c) ->
  0 < c ->
  exists depth,
    cov_data_mJy_per_beam a_fwhm b_fwhm cov_pixarea nefd cov_data
      = Ok depth /\
    forall i j,
      is_Some (pixel cov_data i j) ->
      pixel depth i j
      = Some (sqrt 2 * nefd
              / sqrt (c * beam_area_pix2 a_fwhm b_fwhm cov_pixarea)).
Proof using Type.
  intros Hne Hall Hc.
  assert (image_max cov_data = Ok c) as Hmax.
  { unfold image_max.
    assert (forall y, In y (concat cov_data) -> y = c) as HIn.
    { intros y (i & j & Hpx)%In_concat_pixel. by eapply Hall. }
    destruct (concat cov_data) as [|x xs]; [done|].
    rewrite (HIn x) by (by left). f_equal.
    apply fold_left_Rmax_const. intros y Hy. apply HIn. by right. }
  destruct (cov_data_mJy_per_beam a_fwhm b_fwhm cov_pixarea nefd cov_data)
    as [depth|e] eqn:Hdepth;
    [|unfold cov_data_mJy_per_beam in Hdepth; by rewrite Hmax in Hdepth].
  exists depth. split; [done|].
  intros i j [c' Hpx].
  rewrite (depth_pixel _ _ _ _ _ _ _ _ _ Hmax Hdepth), Hpx. simpl.
  rewrite (Hall _ _ _ Hpx).
  destruct (Rlt_dec (0.02 * c) c); [done|lra].
Qed.

End DepthOrder.

Lemma depth_decreases_with_coverage_witness :
  let depth :=
    assign_where
      (fun c => (sens_coeff * 1 / sqrt (c * beam_area_pix2 1 1 1))%R)
      (image_gt [[1; 4]]%R (0.02 * 4)%R) [[1; 4]]%R in
  exists d1 d2,
    pixel depth 0 0 = Some d1 /\ pixel depth 0 1 = Some d2 /\
    (0 < d2)%R /\ (d2 < d1)%R.
Proof.
  intros depth.
  assert (image_max [[1; 4]]%R = Ok 4%R) as Hmax.
  { unfold image_max. simpl. by rewrite Rmax_right by lra. }
  assert (cov_data_mJy_per_beam 1 1 1 1 [[1; 4]]%R = Ok depth) as Hdepth.
  { unfold cov_data_mJy_per_beam. by rewrite Hmax. }
  apply (depth_decreases_with_coverage 1 1 1 1 ltac:(lra) ltac:(lra)
           ltac:(lra) ltac:(lra) [[1; 4]]%R depth 4%R 0 0 0 1 1%R 4%R
           Hmax Hdepth eq_refl eq_refl); lra.
Defined.

Lemma depth_of_uniform_coverage_witness :
  exists depth,
    cov_data_mJy_per_beam 1 1 1 1 [[2; 2]]%R = Ok depth /\
    forall i j,
      is_Some (pixel [[2; 2]]%R i j) ->
      pixel depth i j
      = Some (sqrt 2 * 1 / sqrt (2 * beam_area_pix2 1 1 1))%R.
Proof.
  apply depth_of_uniform_coverage.
  - discriminate.
  - intros [|i] j c'; [|by destruct i].
    destruct j as [|[|j]]; unfold pixel; simpl; by intros [= <-].
  - lra.
Defined.

Section OutlineFacts.

Local Open Scope R_scope.

Variable findContours : image -> list contour.
Variable arcLength : contour -> bool -> R.
Variable approxPolyDP : contour -> R -> bool -> contour.

Lemma select_contour_returns (cxy : list contour) :
  cxy <> [] -> exists c, select_contour cxy = Ok c /\ c ∈ cxy.
Proof.
  intros Hne. unfold select_contour.
  destruct (find _ cxy) as [c|] eqn:Hfind.
  - exists c. split; [done|].
    apply find_some in Hfind as [Hin _]. by apply list_elem_of_In.
  - destruct (last cxy) as [c|] eqn:Hlast.
    + exists c. split; [done|].
      apply last_Some in Hlast as [l' ->].
      apply elem_of_app. right. by left.
    + by apply last_None in Hlast.
Qed.

(** The outline needs a contour: when the contour search finds none on the
    thresholded image, the step raises [NameError] (the loop variable was
    never bound); otherwise the outline is the simplification of one of the
    contours found, with tolerance 0.002 times its closed perimeter. *)
Theorem outline_needs_a_contour
    (kind : coverage_map_type) (a_fwhm b_fwhm cov_pixarea nefd : R)
    (cov_data im : image) :
  cov_ctr kind a_fwhm b_fwhm cov_pixarea nefd cov_data = Ok im ->
  (findContours im = [] ->
   outline findContours arcLength approxPolyDP kind a_fwhm b_fwhm
     cov_pixarea nefd cov_data = Raise NameError) /\
  (findContours im <> [] ->
   exists c,
     c ∈ findContours im /\
     outline findContours arcLength approxPolyDP kind a_fwhm b_fwhm
       cov_pixarea nefd cov_data
     = Ok (approxPolyDP c (0.002 * arcLength c true) true)).
Proof.
  intros Him. unfold outline. rewrite Him. simpl. split.
  - by intros ->.
  - intros Hne. destruct (select_contour_returns _ Hne) as (c & Hc & Hin).
    exists c. split; [done|]. by rewrite Hc.
Qed.

End OutlineFacts.

Lemma outline_needs_a_contour_witness :
  outline (fun _ => []) (fun _ _ => 1%R) (fun c _ _ => c)
    CovTime 1 1 1 1 [[0; 0]]%R
  = Raise NameError.
Proof.
  assert (cov_ctr CovTime 1 1 1 1 [[0; 0]]%R
          = Ok (zero_outside (image_gt [[0; 0]]%R (0.02 * 0)%R)
                  [[0; 0]]%R)) as Him.
  { unfold cov_ctr, image_max. simpl.
    by rewrite (Rmax_left 0 0) by lra. }
  exact (proj1 (outline_needs_a_contour (fun _ => []) (fun _ _ => 1%R)
                  (fun c _ _ => c) CovTime 1 1 1 1 _ _ Him) eq_refl).
Defined.

(** ** The input items of the reduction *)

Section ResolveInputFacts.

Variable _fix_apt : string -> result string.

Lemma route_entries_filter (fixed : string -> string) (tbl : list entry)
    (data cal : list input_item) :
  (forall e, e ∈ tbl -> is_cal_entry e ->
             _fix_apt (source e) = Ok (fixed (source e))) ->
  route_entries _fix_apt tbl data cal
  = Ok (data
        ++ ((fun e => InputItem (source e) (interface e))
            <$> filter is_data_entry tbl),
        cal
        ++ ((fun e => InputItem (fixed (source e)) (interface e))
            <$> filter is_cal_entry tbl)).
Proof.
  revert data cal. induction tbl as [|e tbl IH]; intros data cal Hfix.
  - simpl. by rewrite !app_nil_r.
  - assert (forall e', e' ∈ tbl -> is_cal_entry e' ->
              _fix_apt (source e') = Ok (fixed (source e'))) as Hrest
      by (intros e' He'; apply Hfix; by right).
    simpl. rewrite !filter_cons.
    destruct (decide (instru e = "toltec")) as [Ht|Ht].
    { rewrite IH by done.
      rewrite decide_True by (by left).
      rewrite decide_False by (by intros [? _]).
      by rewrite fmap_cons, <- app_assoc. }
    destruct (decide (interface e = "lmt")) as [Hl|Hl].
    { rewrite IH by done.
      rewrite decide_True by (by right).
      rewrite decide_False by (intros [_ Ha]; rewrite Hl in Ha; done).
      by rewrite fmap_cons, <- app_assoc. }
    destruct (decide (interface e = "apt")) as [Ha|Ha].
    { rewrite Hfix by (by left || done). simpl. rewrite IH by done.
      rewrite decide_False by (by intros [?|?]).
      rewrite decide_True by done.
      by rewrite fmap_cons, <- app_assoc. }
    rewrite IH by done.
    rewrite decide_False by (by intros [?|?]).
    rewrite decide_False by (by intros [_ ?]).
    done.
Qed.

(** When the calibration tables can be fixed, the data items of a group
    are its TolTEC and [lmt] rows and the calibration items are its other
    [apt] rows, each list in the order of the table; every other row is
    left out, and a TolTEC row is a data item whatever its interface.  The
    name is made of the numbers of the first row. *)
Theorem resolve_input_item_routes (fixed : string -> string)
    (d0 : entry) (rest : list entry) :
  (forall e, e ∈ d0 :: rest -> is_cal_entry e ->
             _fix_apt (source e) = Ok (fixed (source e))) ->
  resolve_input_item _fix_apt d0 rest
  = Ok {| meta_name :=
            str_of_int (obsnum d0) +:+ "_" +:+ str_of_int (subobsnum d0)
              +:+ "_" +:+ str_of_int (scannum d0);
          data_items :=
            (fun e => InputItem (source e) (interface e))
            <$> filter is_data_entry (d0 :: rest);
          cal_items :=
            (fun e => InputItem (fixed (source e)) (interface e))
            <$> filter is_cal_entry (d0 :: rest) |}.
Proof.
  intros Hfix. unfold resolve_input_item.
  by rewrite (route_entries_filter fixed) by done.
Qed.

(** A calibration table that cannot be fixed ends the resolution with its
    error. *)
Theorem resolve_input_item_fix_raises (d0 : entry) (rest : list entry)
    (before after : list entry) (e : entry) (err : exn)
    (fixed : string -> string) :
  d0 :: rest = before ++ e :: after ->
  (forall e', e' ∈ before -> is_cal_entry e' ->
              _fix_apt (source e') = Ok (fixed (source e'))) ->
  is_cal_entry e ->
  _fix_apt (source e) = Raise err ->
  resolve_input_item _fix_apt d0 rest = Raise err.
Proof.
  intros Heq Hbefore [Ht Ha] Hraise. unfold resolve_input_item.
  rewrite Heq. clear Heq.
  generalize (@nil input_item) at 1 as data.
  generalize (@nil input_item) as cal.
  induction before as [|b before IH]; intros cal data.
  - simpl. rewrite decide_False by done.
    destruct (decide (interface e = "lmt")) as [Hl|_];
      [rewrite Ha in Hl; done|].
    rewrite decide_True by done. by rewrite Hraise.
  - assert (forall e', e' ∈ before -> is_cal_entry e' ->
              _fix_apt (source e') = Ok (fixed (source e'))) as Hrest
      by (intros e' He'; apply Hbefore; by right).
    simpl.
    destruct (decide (instru b = "toltec")); [by apply IH|].
    destruct (decide (interface b = "lmt")); [by apply IH|].
    destruct (decide (interface b = "apt")); [|by apply IH].
    rewrite (Hbefore b) by (by left || done). simpl. by apply IH.
Qed.

End ResolveInputFacts.

Lemma resolve_input_item_routes_witness :
  let fix_apt : string -> result string :=
    fun s => Ok (s +:+ "_trimmed") in
  resolve_input_item fix_apt
    (Entry 10 0 1 "tcs" 0 "toltec" "toltec3" "toltec3_10_0_1.nc")
    [ Entry 10 0 1 "tcs" 0 "" "apt" "apt_10_0_1.ecsv";
      Entry 10 0 1 "tcs" 0 "" "hwp" "hwp_10_0_1.nc";
      Entry 10 0 1 "tcs" 0 "" "lmt" "tel_10_0_1.nc" ]
  = Ok {| meta_name := "10_0_1";
          data_items :=
            [ InputItem "toltec3_10_0_1.nc" "toltec3";
              InputItem "tel_10_0_1.nc" "lmt" ];
          cal_items := [ InputItem "apt_10_0_1.ecsv_trimmed" "apt" ] |}.
Proof.
  intros fix_apt.
  rewrite (resolve_input_item_routes fix_apt (fun s => s +:+ "_trimmed"))
    by (intros; reflexivity).
  vm_compute. reflexivity.
Defined.

Lemma resolve_input_item_fix_raises_witness :
  resolve_input_item (fun _ => Raise ValueError)
    (Entry 10 0 1 "tcs" 0 "toltec" "toltec3" "toltec3_10_0_1.nc")
    [ Entry 10 0 1 "tcs" 0 "" "apt" "apt_10_0_1.ecsv" ]
  = Raise ValueError.
Proof.
  apply (resolve_input_item_fix_raises (fun _ => Raise ValueError) _ _
           [Entry 10 0 1 "tcs" 0 "toltec" "toltec3" "toltec3_10_0_1.nc"]
           [] (Entry 10 0 1 "tcs" 0 "" "apt" "apt_10_0_1.ecsv")
           ValueError (fun s => s)).
  - reflexivity.
  - intros e' He' [Hne _]. apply list_elem_of_singleton in He' as ->.
    by destruct Hne.
  - split; [discriminate|reflexivity].
  - reflexivity.
Defined.



(** ** The check of the command-line configuration *)

Lemma node_ind_nested (P : node -> Prop) :
  (forall v, P (Scalar v)) ->
  (forall items, Forall (fun kv : string * node => P kv.2) items ->
                 P (Mapping items)) ->
  (forall items, P (Sequence items)) ->
  forall n, P n.
Proof.
  intros Hscalar Hmapping Hsequence. fix IH 1. intros [v|items|items].
  - apply Hscalar.
  - apply Hmapping. revert items. fix IHitems 1. intros [|[k v] items].
    + constructor.
    + constructor; [apply IH|apply IHitems].
  - apply Hsequence.
Qed.

Lemma check_ignored_mapping ditems citems :
  _check_ignored (Mapping ditems) (Mapping citems)
  = raised
      (if existsb (fun kv : string * node =>
                     negb (bool_decide (kv.1 ∈ citems.*1))) ditems
       then InvalidConfigItems else Passed)
      (check_common _check_ignored citems ditems).
Proof.
  cbn [_check_ignored]. f_equal.
  induction ditems as [|[k dv] ditems IH]; [done|].
  cbn [check_common]. by rewrite <- IH.
Qed.

Lemma raised_invalid a b :
  raised a b = InvalidConfigItems
  <-> a = InvalidConfigItems \/ b = InvalidConfigItems.
Proof. destruct a, b; simpl; intuition discriminate. Qed.

Lemma missing_key_exists (ditems citems : list (string * node)) :
  (if existsb (fun kv : string * node =>
                 negb (bool_decide (kv.1 ∈ citems.*1))) ditems
   then InvalidConfigItems else Passed) = InvalidConfigItems
  <-> exists k dv, (k, dv) ∈ ditems /\ k ∉ citems.*1.
Proof.
  destruct (existsb _ ditems) eqn:Hex.
  - split; [intros _|done].
    apply existsb_exists in Hex as ([k dv] & Hin & Hk).
    exists k, dv. split; [by apply list_elem_of_In|].
    apply negb_true_iff, bool_decide_eq_false in Hk. done.
  - split; [done|]. intros (k & dv & Hin & Hk). exfalso.
    apply not_true_iff_false in Hex. apply Hex.
    apply existsb_exists. exists (k, dv).
    split; [by apply list_elem_of_In|].
    apply negb_true_iff, bool_decide_eq_false. done.
Qed.

Lemma check_common_invalid (check : node -> node -> check_outcome)
    (citems l : list (string * node)) :
  check_common check citems l = InvalidConfigItems
  <-> exists k dv cv,
        (k, dv) ∈ l /\ dict_get k citems = Some cv /\
        check dv cv = InvalidConfigItems.
Proof.
  induction l as [|[k dv] l IH].
  - split; [done|]. intros (k & dv & cv & Hin & _).
    by apply elem_of_nil in Hin.
  - cbn [check_common]. rewrite raised_invalid, IH. split.
    + intros [Hhere|(k' & dv' & cv & Hin & Hget & Hcheck)].
      * destruct (dict_get k citems) as [cv|] eqn:Hget; [|done].
        exists k, dv, cv. split; [by left|done].
      * exists k', dv', cv. split; [by right|done].
    + intros (k' & dv' & cv & Hin & Hget & Hcheck).
      apply elem_of_cons in Hin as [[= -> ->]|Hin].
      * left. by rewrite Hget.
      * right. by exists k', dv', cv.
Qed.

(** [cli_run] rejects the command-line configuration exactly when it holds
    a path of keys that the validated configuration has dropped: some key,
    at the top or below keys that both configurations have as
    dictionaries, is in the one and not in the other. *)
Theorem check_ignored_raises_iff (d c : node) :
  _check_ignored d c = InvalidConfigItems <-> exists p, ignored_path d c p.
Proof.
  revert c. induction d as [v|ditems IH|items] using node_ind_nested;
    intros c.
  - split; [done|]. intros [p Hp]. inversion Hp.
  - destruct c as [v|citems|items];
      try (split; [done|]; intros [p Hp]; inversion Hp).
    rewrite check_ignored_mapping, raised_invalid, missing_key_exists,
      check_common_invalid.
    split.
    + intros [(k & dv & Hin & Hk)|(k & dv & cv & Hin & Hget & Hcheck)].
      * exists [k]. by eapply ignored_here.
      * rewrite List.Forall_forall in IH.
        apply (IH (k, dv)) in Hcheck as [p Hp];
          [|by apply list_elem_of_In].
        exists (k :: p). by eapply ignored_below.
    + intros [p Hp]. inversion Hp as [? ? k dv Hin Hk|? ? k dv cv p' Hin Hget Hp'];
        subst.
      * left. by exists k, dv.
      * right. exists k, dv, cv. split; [done|]. split; [done|].
        rewrite List.Forall_forall in IH.
        apply (IH (k, dv)); [by apply list_elem_of_In|]. by exists p'.
  - split; [done|]. intros [p Hp]. inversion Hp.
Qed.

(** ** The thermometry traces *)

Import Thermometry.

Lemma last_last_n {A} (n : nat) (l : list A) :
  0 < n -> last (last_n n l) = last l.
Proof.
  intros Hn. unfold last_n.
  rewrite <- (take_drop (length l - n) l) at 3.
  destruct (drop (length l - n) l) as [|x l'] eqn:Hdrop.
  - apply (f_equal length) in Hdrop. rewrite length_drop in Hdrop.
    simpl in Hdrop. destruct l as [|y l]; [done|]. simpl in Hdrop. lia.
  - by rewrite last_app_cons.
Qed.

Lemma length_last_n {A} (n : nat) (l : list A) : length (last_n n l) <= n.
Proof. unfold last_n. rewrite length_drop. lia. Qed.

Lemma fold_left_max_ge (xs : list Z) (x : Z) :
  (x <= fold_left Z.max xs x)%Z
  /\ forall y, y ∈ xs -> (y <= fold_left Z.max xs x)%Z.
Proof.
  revert x. induction xs as [|a xs IH]; intros x; simpl.
  - split; [lia|]. intros y Hy. by apply elem_of_nil in Hy.
  - destruct (IH (Z.max x a)) as [Hacc Hrest]. split; [lia|].
    intros y [->|Hy]%elem_of_cons; [lia|by apply Hrest].
Qed.

Lemma fold_left_max_elem (xs : list Z) (x : Z) :
  fold_left Z.max xs x ∈ x :: xs.
Proof.
  revert x. induction xs as [|a xs IH]; intros x; simpl; [by left|].
  specialize (IH (Z.max x a)).
  apply elem_of_cons in IH as [Heq|Hin].
  - rewrite Heq. destruct (Z.max_spec x a) as [[_ ->]|[_ ->]].
    + right. by left.
    + by left.
  - right. by right.
Qed.

Lemma np_max_spec (l : list Z) (m : Z) :
  np_max l = Ok m -> m ∈ l /\ forall y, y ∈ l -> (y <= m)%Z.
Proof.
  destruct l as [|x xs]; [done|]. intros [= <-]. split.
  - apply fold_left_max_elem.
  - destruct (fold_left_max_ge xs x) as [Hhead Hrest].
    intros y [->|Hy]%elem_of_cons; [done|by apply Hrest].
Qed.

Lemma filter_sublist {A} (f : A -> bool) (l : list A) :
  sublist (List.filter f l) l.
Proof.
  induction l as [|x l IH]; simpl; [constructor|].
  destruct (f x); by constructor.
Qed.

Lemma last_times (channels : list channel) (x : Z) :
  x ∈ omap (fun t => fst <$> last (xy t))
        ((fun ch => Trace (channel_label ch) (last_n n_times (samples ch)))
         <$> channels)
  <-> exists ch s, ch ∈ channels /\ last (samples ch) = Some s /\ s.1 = x.
Proof.
  rewrite list_elem_of_omap. split.
  - intros (t & Ht & Hlast).
    apply list_elem_of_fmap in Ht as (ch & -> & Hch).
    cbn [xy] in Hlast. rewrite last_last_n in Hlast by (unfold n_times; lia).
    destruct (last (samples ch)) as [s|] eqn:Hs; [|done].
    injection Hlast as <-. by exists ch, s.
  - intros (ch & s & Hch & Hs & <-).
    exists (Trace (channel_label ch) (last_n n_times (samples ch))).
    split; [apply list_elem_of_fmap; by exists ch|].
    cbn [xy]. rewrite last_last_n by (unfold n_times; lia). by rewrite Hs.
Qed.

(** The traces cannot be made exactly when no channel has a sample, and
    then the call raises [ValueError]: the handler for [RuntimeError]
    around [np.max] never returns the empty list. *)
Theorem get_traces_raises_iff_no_sample (channels : list channel) :
  (get_traces channels = Raise ValueError
   <-> forall ch, ch ∈ channels -> samples ch = [])
  /\ (forall e, get_traces channels = Raise e -> e = ValueError).
Proof.
  unfold get_traces. cbv zeta.
  destruct (omap _ _) as [|x xs] eqn:Htimes; cbn [np_max bind].
  - split; [|by intros e [= <-]]. split; [intros _|done].
    intros ch Hch. destruct (last (samples ch)) as [s|] eqn:Hs.
    + assert (Hx : s.1 ∈ @nil Z); [|by apply elem_of_nil in Hx].
      rewrite <- Htimes. apply last_times. by exists ch, s.
    + by apply last_None.
  - split; [|done]. split; [done|]. intros Hempty. exfalso.
    assert (Hx : x ∈ x :: xs) by by left.
    rewrite <- Htimes in Hx.
    apply last_times in Hx as (ch & s & Hch & Hs & _).
    by rewrite (Hempty ch Hch) in Hs.
Qed.

(** When the traces are made, there is one per channel, in the order of
    the channels and under the channel's label.  The reference time is the
    latest of the channels' last sample times, and a trace holds, in their
    order, those of the channel's last hundred samples that are no more
    than a day older than the reference time and have a positive
    temperature. *)
Theorem get_traces_keeps_recent_positive
    (channels : list channel) (traces : list trace) :
  get_traces channels = Ok traces ->
  exists latest : Z,
    (exists ch s,
        ch ∈ channels /\ last (samples ch) = Some s /\ s.1 = latest)
    /\ (forall ch s,
          ch ∈ channels -> last (samples ch) = Some s -> (s.1 <= latest)%Z)
    /\ length traces = length channels
    /\ forall i ch,
         channels !! i = Some ch ->
         exists tr,
           traces !! i = Some tr
           /\ name tr = channel_label ch
           /\ sublist (xy tr) (samples ch)
           /\ length (xy tr) <= 100
           /\ forall s,
                s ∈ xy tr
                <-> s ∈ last_n 100 (samples ch)
                    /\ (latest - 86400 <= s.1)%Z /\ (0 < s.2)%Q.
Proof.
  unfold get_traces. cbv zeta.
  destruct (np_max _) as [latest|e] eqn:Hmax; cbn [bind]; [|done].
  intros [= <-]. apply np_max_spec in Hmax as [Hin Hle].
  exists latest. split; [by apply last_times|]. split.
  { intros ch s Hch Hs. apply Hle, last_times. by exists ch, s. }
  split; [by rewrite !length_fmap|].
  intros i ch Hi. eexists. split.
  { by rewrite !list_lookup_fmap, Hi. }
  cbn [name xy]. split; [done|]. split.
  { etrans; [apply filter_sublist|]. apply sublist_drop. }
  split.
  { etrans; [apply sublist_length, filter_sublist|].
    apply (length_last_n 100). }
  intros s. rewrite list_elem_of_In, filter_In, <- list_elem_of_In.
  unfold n_times, day. rewrite andb_true_iff, Z.leb_le, negb_true_iff.
  assert (Qle_bool s.2 0 = false <-> (0 < s.2)%Q) as ->; [|done].
  rewrite <- not_true_iff_false, Qle_bool_iff. split.
  - apply Qnot_le_lt.
  - apply Qlt_not_le.
Qed.

Lemma get_traces_keeps_recent_positive_witness :
  let channels :=
    [ Channel "1K" [ (0%Z, 3 # 2); (90000%Z, 0); (100000%Z, 7 # 5) ]%Q;
      Channel "4K" [];
      Channel "40K" [ (99000%Z, 4); (180000%Z, 9 # 2) ]%Q ] in
  let traces :=
    [ Trace "1K" [ (100000%Z, 7 # 5) ]%Q;
      Trace "4K" [];
      Trace "40K" [ (99000%Z, 4); (180000%Z, 9 # 2) ]%Q ] in
  get_traces channels = Ok traces
  /\ exists latest : Z,
      (exists ch s,
          ch ∈ channels /\ last (samples ch) = Some s /\ s.1 = latest)
      /\ (forall ch s,
            ch ∈ channels -> last (samples ch) = Some s ->
            (s.1 <= latest)%Z)
      /\ length traces = length channels
      /\ forall i ch,
           channels !! i = Some ch ->
           exists tr,
             traces !! i = Some tr
             /\ name tr = channel_label ch
             /\ sublist (xy tr) (samples ch)
             /\ length (xy tr) <= 100
             /\ forall s,
                  s ∈ xy tr
                  <-> s ∈ last_n 100 (samples ch)
                      /\ (latest - 86400 <= s.1)%Z /\ (0 < s.2)%Q.
Proof.
  intros channels traces. split; [reflexivity|].
  apply (get_traces_keeps_recent_positive channels traces). reflexivity.
Defined.
